(** * gns3-server: process supervisor and Ethernet hub endpoints

    A shallow embedding of [gns3server/server.py] (class [Server]) and of
    [gns3server/endpoints/compute/ethernet_hub_nodes.py], with the
    properties of their shutdown, reload and NIO life cycle. *)

From stdpp Require Import gmap strings list pretty.
From Stdlib Require Import ZArith.

Local Open Scope string_scope.
Local Open Scope list_scope.

(** ** server.py *)

Module Server.

(** Levels of the [logging] calls made by the module. *)
Inductive level := DEBUG | INFO | WARNING | CRITICAL.

(** The calls that leave the module: logging, the event loop, the signal
    module, the backend modules and [os.execv].  [UnloadCall m] is the
    invocation of [m.unload()] and [UnloadDone m] its normal return. *)
Inductive event :=
| Log (lvl : level) (msg : string)
| LoggerSetLevel (name : string) (lvl : level)
| SetEventLoopProactor
| LoadCertChain (certfile certkey : string)
| AddRoute (method route : string)
| SetPortManager (module : string)
| CreateServer (host : string) (port : Z) (ssl : bool)
| AddSignalHandler (signame : string)
| SignalSignal (signame : string)
| CallLater (delay : nat)
| UnloadCall (module : string)
| UnloadDone (module : string)
| LoopStop
| Execv (path : string) (args : list string).

#[export] Instance level_eq_dec : EqDecision level.
Proof. solve_decision. Defined.

#[export] Instance event_eq_dec : EqDecision event.
Proof. solve_decision. Defined.

(** A generator-based coroutine ([@asyncio.coroutine]): what is left of its
    body.  [Yield] is a suspension point, where control goes back to the
    event loop; [Exec] is [os.execv], which does not return. *)
Inductive coro :=
| Return
| Throw (exc : string)
| Do (e : event) (k : coro)
| Yield (k : coro)
| Exec (path : string) (args : list string).

(** [yield from c] followed by the statements [k]: an exception raised by
    [c] propagates, nothing of [k] runs. *)
Fixpoint yield_from (c k : coro) : coro :=
  match c with
  | Return => k
  | Throw exc => Throw exc
  | Do e c' => Do e (yield_from c' k)
  | Yield c' => Yield (yield_from c' k)
  | Exec path args => Exec path args
  end.

(** What [unload()] of a backend module does is outside this file: it
    suspends some number of times (waiting for child processes to stop)
    and then returns or raises. *)
Record unload_behaviour := {
  suspensions : nat;
  failure : option string
}.

(** Values of [sys.modules]: whether the value is a [types.ModuleType] and
    its [__file__] attribute when it has one. *)
Record sys_module := {
  is_module : bool;
  file : option string
}.

Inductive cert_result := CertLoaded | CertFileNotFound | CertSSLError (msg : string).

(** Everything [Server] reads from its surroundings. *)
Record environment := {
  host : string;                         (* self._host *)
  port : Z;                              (* self._port *)
  start_time : Z;                        (* self._start_time *)
  sys_platform : string;
  sys_executable : string;
  sys_argv : list string;
  sys_modules : list sys_module;
  MODULES : list string;                 (* module.__name__ of each entry *)
  behaviour : string -> unload_behaviour;
  ssl : bool;                            (* server_config.getboolean("ssl") *)
  debug : bool;                          (* server_config.getboolean("debug") *)
  certfile : string;
  certkey : string;
  load_cert_chain : cert_result;
  routes : list (string * string);       (* Route.get_routes(): method, route *)
  bind_suspensions : nat;                (* suspensions inside create_server *)
  bind_failure : option string           (* the OSError of create_server *)
}.

Fixpoint suspend (n : nat) (k : coro) : coro :=
  match n with
  | O => k
  | S n' => Yield (suspend n' k)
  end.

(** [yield from m.unload()] *)
Definition unload (env : environment) (m : string) : coro :=
  Do (UnloadCall m)
     (suspend (suspensions (behaviour env m))
        (match failure (behaviour env m) with
         | None => Do (UnloadDone m) Return
         | Some exc => Throw exc
         end)).

(** [for module in ms: body(module)] followed by [after]. *)
Fixpoint for_each (body : string -> coro) (ms : list string) (after : coro) : coro :=
  match ms with
  | [] => after
  | m :: ms' => yield_from (body m) (for_each body ms' after)
  end.

(** The body of the loop of [_stop_application]. *)
Definition unload_step (env : environment) (module : string) : coro :=
  Do (Log DEBUG ("Unloading module " +:+ module))
     (unload env module).

Definition _stop_application (env : environment) : coro :=
  for_each (unload_step env) (MODULES env) (Do LoopStop Return).

(** The inner coroutine of [_signal_handling]. *)
Definition signal_handler (env : environment) (signame : string) : coro :=
  Do (Log WARNING ("Server has got signal " +:+ signame +:+ ", exiting..."))
     (yield_from (_stop_application env) Return).

(** The inner coroutine of [_reload_hook]. *)
Definition reload (env : environment) : coro :=
  Do (Log INFO "Reloading")
     (yield_from (_stop_application env)
        (Exec (sys_executable env) (sys_executable env :: sys_argv env))).

Definition _run_application (env : environment) (ssl_context : bool) : coro :=
  Do (CreateServer (host env) (port env) ssl_context)
     (suspend (bind_suspensions env)
        (match bind_failure env with
         | None => Return
         | Some e =>
             Do (Log CRITICAL ("Could not start the server: " +:+ e))
                (Do LoopStop Return)
         end)).

(** *** A coroutine driven on its own *)

Inductive outcome :=
| Returned
| Raised (exc : string)
| Replaced (path : string) (args : list string).

(** The calls a coroutine makes when it is driven to its end. *)
Fixpoint events_of (c : coro) : list event :=
  match c with
  | Return | Throw _ => []
  | Do e k => e :: events_of k
  | Yield k => events_of k
  | Exec path args => [Execv path args]
  end.

Fixpoint outcome_of (c : coro) : outcome :=
  match c with
  | Return => Returned
  | Throw exc => Raised exc
  | Do _ k | Yield k => outcome_of k
  | Exec path args => Replaced path args
  end.

Definition unload_calls (tr : list event) : list string :=
  omap (fun e => match e with UnloadCall m => Some m | _ => None end) tr.

Definition unload_returns (tr : list event) : list string :=
  omap (fun e => match e with UnloadDone m => Some m | _ => None end) tr.

(** The calls of one turn of the loop of [_stop_application] whose unload
    returns. *)
Definition unloaded (m : string) : list event :=
  [Log DEBUG ("Unloading module " +:+ m); UnloadCall m; UnloadDone m].

Definition raises (env : environment) (m : string) : Prop :=
  is_Some (failure (behaviour env m)).

#[export] Instance raises_dec env m : Decision (raises env m).
Proof. unfold raises. apply _. Defined.

(** *** The event loop *)

(** Who made a call: the body of [run], the handler coroutine of a signal
    name, the n-th coroutine made by [reload()], or the [_reload_hook]
    callback. *)
Inductive origin :=
| Main
| Handler (signame : string)
| Reloader (n : nat)
| Watch.

#[export] Instance origin_eq_dec : EqDecision origin.
Proof. solve_decision. Defined.

(** The callbacks the loop holds.  [Spawn c] is
    [functools.partial(asyncio.async, c)]: it wraps the coroutine object
    [c] in a task, whose first step is then made ready.  [Step c] is a step
    of a task on [c]; [RaiseStop] is what [loop.stop()] makes ready, and it
    ends [run_forever]; [ReloadHook] is [self._reload_hook]. *)
Inductive callback :=
| Spawn (c : origin)
| Step (c : origin)
| RaiseStop
| ReloadHook.

#[export] Instance callback_eq_dec : EqDecision callback.
Proof. solve_decision. Defined.

(** The state of the loop and of the objects it refers to.  There is one
    coroutine object per signal name, made when the handlers are installed,
    and one per call of [reload()]; tasks refer to them by name. *)
Record loop := {
  handlers : gmap string coro;
  reloads : list coro;
  ready : list callback;               (* loop._ready, first in first out *)
  scheduled : list callback;           (* call_later(1, ...) not yet due *)
  waiting : list callback;             (* tasks suspended in what they await *)
  mtimes : gmap string Z;              (* os.stat(path).st_mtime *)
  trace : list (origin * event)
}.

Definition fresh_loop : loop :=
  {| handlers := ∅; reloads := []; ready := []; scheduled := [];
     waiting := []; mtimes := ∅; trace := [] |}.

Definition set_handlers (f : gmap string coro -> gmap string coro) (w : loop) : loop :=
  {| handlers := f (handlers w); reloads := reloads w; ready := ready w;
     scheduled := scheduled w; waiting := waiting w;
     mtimes := mtimes w; trace := trace w |}.

Definition set_reloads (f : list coro -> list coro) (w : loop) : loop :=
  {| handlers := handlers w; reloads := f (reloads w); ready := ready w;
     scheduled := scheduled w; waiting := waiting w;
     mtimes := mtimes w; trace := trace w |}.

Definition set_ready (f : list callback -> list callback) (w : loop) : loop :=
  {| handlers := handlers w; reloads := reloads w; ready := f (ready w);
     scheduled := scheduled w; waiting := waiting w;
     mtimes := mtimes w; trace := trace w |}.

Definition set_scheduled (f : list callback -> list callback) (w : loop) : loop :=
  {| handlers := handlers w; reloads := reloads w; ready := ready w;
     scheduled := f (scheduled w); waiting := waiting w;
     mtimes := mtimes w; trace := trace w |}.

Definition set_waiting (f : list callback -> list callback) (w : loop) : loop :=
  {| handlers := handlers w; reloads := reloads w; ready := ready w;
     scheduled := scheduled w; waiting := f (waiting w);
     mtimes := mtimes w; trace := trace w |}.

Definition set_mtimes (f : gmap string Z -> gmap string Z) (w : loop) : loop :=
  {| handlers := handlers w; reloads := reloads w; ready := ready w;
     scheduled := scheduled w; waiting := waiting w;
     mtimes := f (mtimes w); trace := trace w |}.

Definition set_trace (f : list (origin * event) -> list (origin * event)) (w : loop) : loop :=
  {| handlers := handlers w; reloads := reloads w; ready := ready w;
     scheduled := scheduled w; waiting := waiting w;
     mtimes := mtimes w; trace := f (trace w) |}.

Definition call_soon (cb : callback) : loop -> loop :=
  set_ready (fun q => q ++ [cb]).

Definition call_later (cb : callback) : loop -> loop :=
  set_scheduled (fun q => q ++ [cb]).

(** A task that is suspended waits for what it awaits; when that
    completes, the next step of the task is made ready. *)
Definition wait_for (cb : callback) : loop -> loop :=
  set_waiting (fun q => q ++ [cb]).

Definition wake (i : nat) (w : loop) : loop :=
  match waiting w !! i with
  | Some cb => call_soon cb (set_waiting (fun q => delete i q) w)
  | None => w
  end.

(** One call made by [o]: it is recorded, and [loop.stop()] makes
    [RaiseStop] ready. *)
Definition emit (o : origin) (e : event) (w : loop) : loop :=
  let w' := set_trace (fun tr => tr ++ [(o, e)]) w in
  match e with
  | LoopStop => call_soon RaiseStop w'
  | _ => w'
  end.

Definition emit_all (o : origin) (es : list event) (w : loop) : loop :=
  foldl (fun w e => emit o e w) w es.

(** The calls made by [o], in order. *)
Definition calls_by (o : origin) (tr : list (origin * event)) : list event :=
  omap (fun oe => if decide (oe.1 = o) then Some oe.2 else None) tr.

(** Resuming a generator: it runs to its next suspension point, to its end,
    or to [os.execv]. *)
Inductive status :=
| Suspended
| Finished
| Execed (path : string) (args : list string).

Fixpoint resume (c : coro) : list event * coro * status :=
  match c with
  | Return => ([], Return, Finished)
  | Throw exc => ([], Throw exc, Finished)
  | Do e k => let '(es, c', st) := resume k in (e :: es, c', st)
  | Yield k => ([], k, Suspended)
  | Exec path args => ([], Exec path args, Execed path args)
  end.

Definition lookup_coro (o : origin) (w : loop) : option coro :=
  match o with
  | Handler s => handlers w !! s
  | Reloader n => reloads w !! n
  | Main | Watch => None
  end.

Definition store_coro (o : origin) (c : coro) (w : loop) : loop :=
  match o with
  | Handler s => set_handlers (fun h => <[s := c]> h) w
  | Reloader n => set_reloads (fun l => <[n := c]> l) w
  | Main | Watch => w
  end.

(** The process that runs [Server.run]: inside [run_forever]; after [run]
    has returned; after an exception has left [run]; or replaced by
    [os.execv], when nothing of its memory is left. *)
Inductive process :=
| Running (w : loop)
| Ended (tr : list (origin * event))
| Died (tr : list (origin * event)) (exc : string)
| Execd (tr : list (origin * event)) (path : string) (args : list string).

Definition history (p : process) : list (origin * event) :=
  match p with
  | Running w => trace w
  | Ended tr | Died tr _ | Execd tr _ _ => tr
  end.

(** [s.endswith(suffix)] and [s[:-1]] *)
Definition endswith (s suffix : string) : bool :=
  (String.length suffix <=? String.length s)%nat &&
  String.eqb (String.substring (String.length s - String.length suffix)
                        (String.length suffix) s) suffix.

Definition drop_last (s : string) : string :=
  String.substring 0 (String.length s - 1) s.

Definition startswith (s pre : string) : bool := String.prefix pre s.

Definition windows (env : environment) : bool :=
  startswith (sys_platform env) "win".

(** [asyncio.async(reload())]: a new coroutine object and a task on it. *)
Definition spawn_reload (env : environment) (w : loop) : loop :=
  call_soon (Step (Reloader (length (reloads w))))
            (set_reloads (fun l => l ++ [reload env]) w).

(** The file [_reload_hook] looks at for one value of [sys.modules]: none
    for what is not an ordinary module or has no [__file__]; the source
    file for a [.pyc] or [.pyo]. *)
Definition watched_path (m : sys_module) : option string :=
  if negb (is_module m) then None else
  match file m with
  | None => None
  | Some path =>
      if String.eqb path "" then None else
      Some (if endswith path ".pyc" || endswith path ".pyo"
            then drop_last path else path)
  end.

(** The [for module in sys.modules.values()] loop of [_reload_hook].  The
    boolean is false when [os.stat] raised, which ends the callback where
    it is. *)
Fixpoint scan (env : environment) (mods : list sys_module) (w : loop) : loop * bool :=
  match mods with
  | [] => (w, true)
  | m :: mods' =>
      match watched_path m with
      | None => scan env mods' w
      | Some path =>
          match mtimes w !! path with
          | None => (w, false)
          | Some modified =>
              if (start_time env <? modified)%Z
              then scan env mods'
                     (spawn_reload env
                        (emit Watch (Log DEBUG ("File " +:+ path +:+ " has been modified")) w))
              else scan env mods' w
          end
      end
  end.

(** Whether a value of [sys.modules] has a file written after the server
    started. *)
Definition modified_since_start (env : environment) (files : gmap string Z)
    (m : sys_module) : bool :=
  match watched_path m with
  | None => false
  | Some path =>
      match files !! path with
      | None => false
      | Some modified => (start_time env <? modified)%Z
      end
  end.

(** How many tasks one scan starts: one for every file found modified
    before an [os.stat] fails. *)
Fixpoint spawned (env : environment) (files : gmap string Z)
    (mods : list sys_module) : nat :=
  match mods with
  | [] => 0
  | m :: mods' =>
      match watched_path m with
      | None => spawned env files mods'
      | Some path =>
          match files !! path with
          | None => 0
          | Some modified =>
              if (start_time env <? modified)%Z
              then S (spawned env files mods')
              else spawned env files mods'
          end
      end
  end.

Definition _reload_hook (env : environment) (w : loop) : loop :=
  let '(w', ok) := scan env (sys_modules env) w in
  if ok then call_later ReloadHook (emit Watch (CallLater 1) w') else w'.

(** Whether the generator that [o] names is suspended in a future that is
    not done: a task on it waits for that future. *)
Definition awaiting (o : origin) (w : loop) : bool :=
  bool_decide (Step o ∈ waiting w).

(** One callback of [loop._ready] run by [run_forever].  A step of a task
    resumes the coroutine object the task is on; a task whose coroutine
    suspends waits for what it awaits.  Two tasks on one coroutine object
    resume the same generator: the second finds it where the first left
    it.  When that is in a [yield from] of a future that is not done, the
    resumed [Future.__iter__] of asyncio 3.4 fails its
    [assert self.done()]: the [AssertionError] is raised at the suspension
    point, nothing in [server.py] catches it and the [unload()] it passes
    through is taken not to catch it either, so it ends the generator and
    the task that resumed it, and no call is made.  The task that waits for
    the future finds the generator ended when the future completes. *)
Definition run_once (env : environment) (w : loop) : process :=
  match ready w with
  | [] => Running w
  | cb :: rest =>
      let w := set_ready (fun _ => rest) w in
      match cb with
      | RaiseStop => Ended (trace w)
      | Spawn o => Running (call_soon (Step o) w)
      | ReloadHook => Running (_reload_hook env w)
      | Step o =>
          match lookup_coro o w with
          | None => Running w
          | Some c =>
              if awaiting o w
              then Running (store_coro o (Throw "AssertionError") w)
              else
                let '(es, c', st) := resume c in
                let w' := store_coro o c' (emit_all o es w) in
                match st with
                | Suspended => Running (wait_for (Step o) w')
                | Finished => Running w'
                | Execed path args =>
                    Execd (trace w' ++ [(o, Execv path args)]) path args
                end
          end
      end
  end.

(** *** Startup *)

Definition signals (env : environment) : list string :=
  ["SIGTERM"; "SIGINT"] ++
  (if windows env then ["SIGBREAK"] else ["SIGHUP"; "SIGQUIT"]).

(** [_signal_handling]: one coroutine object per signal name, bound into
    the callback registered for that signal. *)
Definition _signal_handling (env : environment) (w : loop) : loop :=
  foldl
    (fun w signal_name =>
       let w := set_handlers (fun h => <[signal_name := signal_handler env signal_name]> h) w in
       if windows env
       then emit Main (SignalSignal signal_name) w
       else emit Main (AddSignalHandler signal_name) w)
    w (signals env).

(** [self._loop.run_until_complete(c)] on the loop as [run] has it at that
    point, with nothing else ready: the task on [c] is driven to its end,
    its completion makes the stop callback that [run_until_complete] added
    ready, and the inner [run_forever] returns at the first [RaiseStop] of
    the queue. *)
Definition run_until_complete (c : coro) (w : loop) : loop :=
  let w := emit_all Main (events_of c) w in
  let w := call_soon RaiseStop w in
  set_ready (fun q => drop 1 q) w.

(** [Server.run] from [self._loop = asyncio.get_event_loop()] on, up to
    the point where it enters [run_forever]. *)
Definition start_loop (env : environment) (ssl_context : bool) (w : loop) : process :=
  let w := emit_all Main
             (flat_map (fun '(method, route) =>
                          [Log DEBUG ("Adding route: " +:+ method +:+ " " +:+ route);
                           AddRoute method route]) (routes env)) w in
  let w := emit_all Main
             (flat_map (fun module =>
                          [Log DEBUG ("Loading module " +:+ module);
                           SetPortManager module]) (MODULES env)) w in
  let w := emit Main (Log INFO ("Starting server on " +:+ host env +:+ ":" +:+ pretty (port env))) w in
  let w := run_until_complete (_run_application env ssl_context) w in
  let w := _signal_handling env w in
  let w :=
    if debug env
    then call_later ReloadHook
           (emit Main (CallLater 1)
              (emit Main (Log INFO "Code live reload is enabled, watching for file changes") w))
    else w in
  Running w.

(** [_create_ssl_context]: the boolean is false when it raises
    [SystemExit]. *)
Definition _create_ssl_context (env : environment) (w : loop) : loop * bool :=
  let w := emit Main (LoadCertChain (certfile env) (certkey env)) w in
  match load_cert_chain env with
  | CertLoaded => (w, true)
  | CertFileNotFound =>
      (emit Main (Log CRITICAL "Could not find the SSL certfile or certkey") w, false)
  | CertSSLError e =>
      (emit Main (Log CRITICAL ("SSL error: " +:+ e)) w, false)
  end.

(** [Server.run]: the SSL checks come first and end the process with
    [SystemExit] when they fail. *)
Definition run (env : environment) (files : gmap string Z) : process :=
  let w := set_mtimes (fun _ => files) fresh_loop in
  let w := emit Main (LoggerSetLevel "asyncio" WARNING) w in
  let w := if windows env then emit Main SetEventLoopProactor w else w in
  if ssl env then
    if windows env then
      Died (trace (emit Main (Log CRITICAL "SSL mode is not supported on Windows") w))
           "SystemExit"
    else
      let '(w, ssl_context) := _create_ssl_context env w in
      if ssl_context then start_loop env true w
      else Died (trace w) "SystemExit"
  else start_loop env false w.

Definition is_running (p : process) : bool :=
  match p with
  | Running _ => true
  | _ => false
  end.

(** *** What happens to the running process *)

Inductive action :=
| Deliver (signame : string)           (* the OS delivers a signal *)
| Elapse                               (* a second passes: timers fall due *)
| Touch (path : string) (mtime : Z)    (* a source file is written *)
| Complete (i : nat)                   (* what the i-th waiting task awaits completes *)
| RunOnce.                             (* the loop runs its next callback *)

(** Delivery of a signal.  With [add_signal_handler] the loop makes the
    registered callback ready.  With [signal.signal] the callback is called
    in the main thread with the signal number and the frame, which
    [asyncio.async] does not accept: no task is made, and the [TypeError]
    is taken to leave [run_forever] and [run]. *)
Definition deliver (env : environment) (s : string) (w : loop) : process :=
  match handlers w !! s with
  | None => Running w
  | Some _ =>
      if windows env then Died (trace w) "TypeError"
      else Running (call_soon (Spawn (Handler s)) w)
  end.

Definition act (env : environment) (p : process) (a : action) : process :=
  match p with
  | Running w =>
      match a with
      | Deliver s => deliver env s w
      | Elapse =>
          Running (set_scheduled (fun _ => [])
                     (set_ready (fun q => q ++ scheduled w) w))
      | Touch path mtime => Running (set_mtimes (fun fs => <[path := mtime]> fs) w)
      | Complete i => Running (wake i w)
      | RunOnce => run_once env w
      end
  | _ => p
  end.

Definition execute (env : environment) (acts : list action) (p : process) : process :=
  foldl (act env) p acts.

End Server.

(** ** endpoints/compute/ethernet_hub_nodes.py *)

Module EthernetHubNodes.

(** Modelled from the spec: the conditions the backend raises, which
    reach the caller as client errors (not found, conflict) or as a server
    error. *)
Inductive error :=
| NotFound
| Conflict
| BackendError (msg : string).

#[export] Instance error_eq_dec : EqDecision error.
Proof. solve_decision. Defined.

(** Modelled from the spec: the Dynamips manager, the hub node and the NIO
    are not in the file; this is the capability the handlers consume
    ([getNode(node_id, project_id) -> Node | NotFound], [createNIO],
    [addNio], [removeNio(port) -> NetworkEndpoint],
    [getNio(port) -> NetworkEndpoint | NotFound], [startCapture],
    [stopCapture]).  [manager] is the state behind [Dynamips.instance()];
    the lookups read it, the other operations may change it and may
    raise. *)
Class Backend := {
  manager : Type;
  node : Type;
  nio : Type;
  nio_config : Type;
  json : Type;
  stream : Type;
  manager_get_node : manager -> string -> string -> option node;
  manager_create_nio : node -> nio_config -> manager -> (error + nio) * manager;
  node_add_nio : node -> nio -> Z -> manager -> (error + unit) * manager;
  node_remove_nio : node -> Z -> manager -> (error + nio) * manager;
  nio_delete : nio -> manager -> (error + unit) * manager;
  node_start_capture : node -> Z -> string -> string -> manager -> (error + unit) * manager;
  node_stop_capture : node -> Z -> manager -> (error + unit) * manager;
  node_get_nio : manager -> node -> Z -> option nio;
  manager_stream_pcap_file : manager -> nio -> string -> stream;
  capture_working_directory : manager -> node -> string;
  node_project_id : manager -> node -> string;
  nio_json : manager -> nio -> json
}.

(** [os.path] is [posixpath] or [ntpath], by the platform the server runs
    on: the handlers take [os.path.join] as it is there. *)
Class OsPath := {
  os_path_join : string -> string -> string
}.

(** [posixpath.join(a, b)] *)
Definition posixpath_join (a b : string) : string :=
  if String.prefix "/" b then b
  else if String.eqb a "" || Server.endswith a "/" then a +:+ b
  else a +:+ "/" +:+ b.

(** [os.path] off Windows. *)
Definition posixpath : OsPath := {| os_path_join := posixpath_join |}.

Section Handlers.
Context `{Backend} `{OsPath}.

(** The calls a handler makes on the backend. *)
Inductive call : Type -> Type :=
| GetNode (node_id project_id : string) : call node
| CreateNio (n : node) (nio_data : nio_config) : call nio
| AddNio (n : node) (x : nio) (port_number : Z) : call unit
| RemoveNio (n : node) (port_number : Z) : call nio
| NioDelete (x : nio) : call unit
| StartCapture (n : node) (port_number : Z) (pcap_file_path data_link_type : string) : call unit
| StopCapture (n : node) (port_number : Z) : call unit
| GetNio (n : node) (port_number : Z) : call nio
| StreamPcapFile (x : nio) (project_id : string) : call stream
| CaptureWorkingDirectory (n : node) : call string
| ProjectId (n : node) : call string
| NioJson (x : nio) : call json.

Inductive invoked :=
| Invoked (X : Type) (c : call X).

Arguments Invoked {X} c.

(** The body of a handler: plain calls, awaited calls and the reply.  An
    awaited call is a point where the handler may be suspended and other
    handlers run. *)
Inductive handler (A : Type) : Type :=
| Reply (a : A)
| Plain (X : Type) (c : call X) (k : X -> handler A)
| Await (X : Type) (c : call X) (k : X -> handler A).

Arguments Reply {A} a.
Arguments Plain {A X} c k.
Arguments Await {A X} c k.

Definition perform {X : Type} (c : call X) (m : manager) : (error + X) * manager :=
  match c in call X return (error + X) * manager with
  | GetNode node_id project_id =>
      (match manager_get_node m node_id project_id with
       | Some n => inr n
       | None => inl NotFound
       end, m)
  | CreateNio n nio_data => manager_create_nio n nio_data m
  | AddNio n x port_number => node_add_nio n x port_number m
  | RemoveNio n port_number => node_remove_nio n port_number m
  | NioDelete x => nio_delete x m
  | StartCapture n port_number path dlt => node_start_capture n port_number path dlt m
  | StopCapture n port_number => node_stop_capture n port_number m
  | GetNio n port_number =>
      (match node_get_nio m n port_number with
       | Some x => inr x
       | None => inl NotFound
       end, m)
  | StreamPcapFile x project_id => (inr (manager_stream_pcap_file m x project_id), m)
  | CaptureWorkingDirectory n => (inr (capture_working_directory m n), m)
  | ProjectId n => (inr (node_project_id m n), m)
  | NioJson x => (inr (nio_json m x), m)
  end.

(** A handler run from its first statement to its reply with nothing else
    scheduled in between: the reply or the exception, the state of the
    backend, and the calls made. *)
Fixpoint run_handler {A : Type} (h : handler A) (m : manager)
    : (error + A) * manager * list invoked :=
  match h with
  | Reply a => (inr a, m, [])
  | Plain c k | Await c k =>
      match perform c m with
      | (inl e, m') => (inl e, m', [Invoked c])
      | (inr x, m') =>
          let '(r, m'', calls) := run_handler (k x) m' in
          (r, m'', Invoked c :: calls)
      end
  end.

(** One turn of a handler: it runs up to the completion of its next
    awaited call, where the scheduler may give the turn to another
    handler. *)
Inductive progress (A : Type) : Type :=
| Finished (r : error + A)
| Suspended (rest : handler A).

Arguments Finished {A} r.
Arguments Suspended {A} rest.

Fixpoint turn {A : Type} (h : handler A) (m : manager) : progress A * manager :=
  match h with
  | Reply a => (Finished (inr a), m)
  | Plain c k =>
      match perform c m with
      | (inl e, m') => (Finished (inl e), m')
      | (inr x, m') => turn (k x) m'
      end
  | Await c k =>
      match perform c m with
      | (inl e, m') => (Finished (inl e), m')
      | (inr x, m') => (Suspended (k x), m')
      end
  end.

Definition is_suspended {A : Type} (p : progress A) : bool :=
  match p with
  | Suspended _ => true
  | Finished _ => false
  end.

(** The next turn of a handler that was suspended. *)
Definition next_turn {A : Type} (p : progress A) (m : manager) : progress A * manager :=
  match p with
  | Finished r => (Finished r, m)
  | Suspended rest => turn rest m
  end.

(** *** The handlers *)

Definition start_ethernet_hub (project_id node_id : string) : handler unit :=
  Plain (GetNode node_id project_id) (fun _ => Reply tt).

Definition stop_ethernet_hub (project_id node_id : string) : handler unit :=
  Plain (GetNode node_id project_id) (fun _ => Reply tt).

Definition suspend_ethernet_hub (project_id node_id : string) : handler unit :=
  Plain (GetNode node_id project_id) (fun _ => Reply tt).

Definition create_nio (project_id node_id : string) (adapter_number port_number : Z)
    (nio_data : nio_config) : handler json :=
  Plain (GetNode node_id project_id) (fun node =>
  Await (CreateNio node nio_data) (fun nio =>
  Await (AddNio node nio port_number) (fun _ =>
  Plain (NioJson nio) (fun j => Reply j)))).

Definition delete_nio (project_id node_id : string) (adapter_number port_number : Z)
    : handler unit :=
  Plain (GetNode node_id project_id) (fun node =>
  Await (RemoveNio node port_number) (fun nio =>
  Await (NioDelete nio) (fun _ => Reply tt))).

Definition start_capture (project_id node_id : string) (adapter_number port_number : Z)
    (capture_file_name data_link_type : string) : handler string :=
  Plain (GetNode node_id project_id) (fun node =>
  Plain (CaptureWorkingDirectory node) (fun dir =>
  let pcap_file_path := os_path_join dir capture_file_name in
  Await (StartCapture node port_number pcap_file_path data_link_type) (fun _ =>
  Reply pcap_file_path))).

Definition stop_capture (project_id node_id : string) (adapter_number port_number : Z)
    : handler unit :=
  Plain (GetNode node_id project_id) (fun node =>
  Await (StopCapture node port_number) (fun _ => Reply tt)).

Definition stream_pcap_file (project_id node_id : string) (adapter_number port_number : Z)
    : handler stream :=
  Plain (GetNode node_id project_id) (fun node =>
  Plain (GetNio node port_number) (fun nio =>
  Plain (ProjectId node) (fun pid =>
  Plain (StreamPcapFile nio pid) (fun s => Reply s)))).

End Handlers.

Arguments Invoked {_ X} c.
Arguments Reply {_ A} a.
Arguments Plain {_ A X} c k.
Arguments Await {_ A X} c k.
Arguments Finished {_ A} r.
Arguments Suspended {_ A} rest.

End EthernetHubNodes.

(** ** The backend of the handlers, from the specification *)

Module Dynamips.
Import EthernetHubNodes.

(** Modelled from the spec: a Network Endpoint holds its transport
    configuration (a UDP tunnel) and an optional Capture Session, of which
    the destination file and the link type are kept. *)
Record udp_nio := {
  lport : Z;
  rhost : string;
  rport : Z
}.

Record endpoint := {
  transport : udp_nio;
  capture : option (string * string)
}.

(** Modelled from the spec: a Node has a project, its ports, and a mapping
    of port index to attached endpoint, at most one per port. *)
Record hub := {
  project : string;
  capture_directory : string;
  ports : list Z;
  mappings : gmap Z nat
}.

(** Modelled from the spec: the nodes of the backend module and the
    endpoints that are created and not yet released. *)
Record state := {
  nodes : gmap string hub;
  endpoints : gmap nat endpoint;
  next_endpoint : nat
}.

Definition set_hub (node_id : string) (h : hub) (st : state) : state :=
  {| nodes := <[node_id := h]> (nodes st); endpoints := endpoints st;
     next_endpoint := next_endpoint st |}.

Definition set_mappings (f : gmap Z nat -> gmap Z nat) (h : hub) : hub :=
  {| project := project h; capture_directory := capture_directory h;
     ports := ports h; mappings := f (mappings h) |}.

Definition set_endpoints (f : gmap nat endpoint -> gmap nat endpoint) (st : state) : state :=
  {| nodes := nodes st; endpoints := f (endpoints st);
     next_endpoint := next_endpoint st |}.

Definition set_capture (c : option (string * string)) (e : endpoint) : endpoint :=
  {| transport := transport e; capture := c |}.

(** Modelled from the spec: [getNode(node_id, project_id) -> Node |
    NotFound]. *)
Definition get_node (st : state) (node_id project_id : string) : option string :=
  match nodes st !! node_id with
  | Some h => if String.eqb (project h) project_id then Some node_id else None
  | None => None
  end.

(** Modelled from the spec: [createNIO(node, config) -> NetworkEndpoint];
    the endpoint is created detached. *)
Definition create_endpoint (node_id : string) (cfg : udp_nio) (st : state)
    : (error + nat) * state :=
  (inr (next_endpoint st),
   {| nodes := nodes st;
      endpoints := <[next_endpoint st := {| transport := cfg; capture := None |}]> (endpoints st);
      next_endpoint := S (next_endpoint st) |}).

(** Modelled from the spec: Attach fails with a not-found condition if
    the node or port does not exist and with a conflict condition if the
    port already holds an endpoint. *)
Definition add_nio (node_id : string) (x : nat) (port_number : Z) (st : state)
    : (error + unit) * state :=
  match nodes st !! node_id with
  | None => (inl NotFound, st)
  | Some h =>
      if negb (bool_decide (port_number ∈ ports h)) then (inl NotFound, st) else
      match mappings h !! port_number with
      | Some _ => (inl Conflict, st)
      | None => (inr tt, set_hub node_id (set_mappings (fun mp => <[port_number := x]> mp) h) st)
      end
  end.

(** Modelled from the spec: [removeNio(port) -> NetworkEndpoint] removes
    the endpoint from the port mapping; an active Capture Session is
    stopped as part of the detach. *)
Definition remove_nio (node_id : string) (port_number : Z) (st : state)
    : (error + nat) * state :=
  match nodes st !! node_id with
  | None => (inl NotFound, st)
  | Some h =>
      match mappings h !! port_number with
      | None => (inl NotFound, st)
      | Some x =>
          (inr x,
           set_hub node_id (set_mappings (fun mp => delete port_number mp) h)
             (set_endpoints (fun es => alter (set_capture None) x es) st))
      end
  end.

(** Modelled from the spec: releasing an endpoint; a second release does
    nothing. *)
Definition release (x : nat) (st : state) : (error + unit) * state :=
  (inr tt, set_endpoints (fun es => delete x es) st).

(** Modelled from the spec: Start capture fails with not-found if the
    port has no attached endpoint and with a conflict if a capture is
    already running on it. *)
Definition start_capture_on (node_id : string) (port_number : Z)
    (pcap_file_path data_link_type : string) (st : state) : (error + unit) * state :=
  match nodes st !! node_id with
  | None => (inl NotFound, st)
  | Some h =>
      match mappings h !! port_number with
      | None => (inl NotFound, st)
      | Some x =>
          match endpoints st !! x with
          | None => (inl NotFound, st)
          | Some e =>
              match capture e with
              | Some _ => (inl Conflict, st)
              | None =>
                  (inr tt,
                   set_endpoints
                     (fun es => <[x := set_capture (Some (pcap_file_path, data_link_type)) e]> es)
                     st)
              end
          end
      end
  end.

(** Modelled from the spec: stopping an endpoint with no active capture is
    a caller error (not-found). *)
Definition stop_capture_on (node_id : string) (port_number : Z) (st : state)
    : (error + unit) * state :=
  match nodes st !! node_id with
  | None => (inl NotFound, st)
  | Some h =>
      match mappings h !! port_number with
      | None => (inl NotFound, st)
      | Some x =>
          match endpoints st !! x with
          | None => (inl NotFound, st)
          | Some e =>
              match capture e with
              | None => (inl NotFound, st)
              | Some _ => (inr tt, set_endpoints (fun es => <[x := set_capture None e]> es) st)
              end
          end
      end
  end.

(** Modelled from the spec: [getNio(port) -> NetworkEndpoint | NotFound]. *)
Definition get_nio (st : state) (node_id : string) (port_number : Z) : option nat :=
  match nodes st !! node_id with
  | None => None
  | Some h => mappings h !! port_number
  end.

(** Modelled from the spec: the stream of the capture file of an
    endpoint, here the file it reads, if the endpoint has one. *)
Definition stream_of (st : state) (x : nat) (project_id : string) : option string :=
  match endpoints st !! x with
  | Some e => fst <$> capture e
  | None => None
  end.

Definition directory_of (st : state) (node_id : string) : string :=
  match nodes st !! node_id with
  | Some h => capture_directory h
  | None => ""
  end.

Definition project_of (st : state) (node_id : string) : string :=
  match nodes st !! node_id with
  | Some h => project h
  | None => ""
  end.

Definition json_of (st : state) (x : nat) : option udp_nio :=
  transport <$> endpoints st !! x.

#[export] Instance backend : Backend := {|
  manager := state;
  node := string;
  nio := nat;
  nio_config := udp_nio;
  json := option udp_nio;
  stream := option string;
  manager_get_node := get_node;
  manager_create_nio := create_endpoint;
  node_add_nio := add_nio;
  node_remove_nio := remove_nio;
  nio_delete := release;
  node_start_capture := start_capture_on;
  node_stop_capture := stop_capture_on;
  node_get_nio := get_nio;
  manager_stream_pcap_file := stream_of;
  capture_working_directory := directory_of;
  node_project_id := project_of;
  nio_json := json_of
|}.

(** Whether port [port_number] of the node holds no endpoint, and whether
    endpoint [x] is created and not yet released. *)
Definition slot_empty (st : state) (node_id : string) (port_number : Z) : bool :=
  bool_decide (get_nio st node_id port_number = None).

Definition live (st : state) (x : nat) : bool :=
  bool_decide (is_Some (endpoints st !! x)).

End Dynamips.

(** ** The handlers of the node record *)

Module EthernetHubRecords.
Import EthernetHubNodes.

(** Modelled from the spec: the capability the record handlers consume
    ([createNode(name, project_id, node_id?, type, ports) -> Node],
    [getNode(node_id, project_id) -> Node | NotFound], [deleteNode(node_id)],
    [duplicateNode(node_id, destination_id) -> Node], [setName(name)],
    [updated()]) and the attributes of a Node (its name, its port mapping).
    [store] is the state behind [Dynamips.instance()]; the lookup and the
    attribute reads leave it as it is, every other operation may change it
    and may raise. *)
Class NodeStore := {
  store : Type;
  hub_node : Type;
  mapping : Type;
  hub_json : Type;
  store_create_node :
    string -> string -> option string -> string -> option mapping -> store ->
    (error + hub_node) * store;
  store_get_node : store -> string -> string -> option hub_node;
  store_duplicate_node : string -> string -> store -> (error + hub_node) * store;
  store_delete_node : string -> store -> (error + unit) * store;
  hub_node_name : store -> hub_node -> string;
  hub_node_set_name : hub_node -> string -> store -> (error + unit) * store;
  hub_node_set_ports_mapping : hub_node -> mapping -> store -> (error + unit) * store;
  hub_node_updated : hub_node -> store -> (error + unit) * store;
  hub_node_json : store -> hub_node -> hub_json
}.

(** What leaves a handler instead of a reply: an exception of the backend,
    or the [KeyError] of a key the request body does not have. *)
Inductive failure :=
| Raised (e : error)
| KeyError (key : string).

Inductive mode :=
| Awaited
| Direct.

Section Handlers.
Context `{NodeStore}.

(** [jsonable_encoder(node_data, exclude_unset=True)]: a key is in the
    dict when the request sets the field. *)
Record node_data := {
  name : option string;
  node_id : option string;
  ports_mapping : option mapping
}.

(** The calls and attribute assignments a handler makes on the backend. *)
Inductive request :=
| CreateNode (name project_id : string) (node_id : option string) (node_type : string)
    (ports : option mapping)
| GetNode (node_id project_id : string)
| DuplicateNode (node_id destination_node_id : string)
| DeleteNode (node_id : string)
| SetName (n : hub_node) (name : string)
| SetPortsMapping (n : hub_node) (ports : mapping)
| Updated (n : hub_node).

(** A handler body: from the state of the backend to the reply or the
    exception, the state it leaves and the requests made, each awaited or
    not. *)
Definition action (A : Type) : Type :=
  store -> (failure + A) * store * list (mode * request).

Definition ret {A : Type} (a : A) : action A :=
  fun m => (inr a, m, []).

Definition raise {A : Type} (f : failure) : action A :=
  fun m => (inl f, m, []).

Definition bind {A B : Type} (a : action A) (k : A -> action B) : action B :=
  fun m =>
    match a m with
    | (inl f, m', log) => (inl f, m', log)
    | (inr x, m', log) =>
        let '(r, m'', log') := k x m' in (r, m'', log ++ log')
    end.

Definition perform {A : Type} (md : mode) (rq : request)
    (f : store -> (error + A) * store) : action A :=
  fun m =>
    match f m with
    | (inl e, m') => (inl (Raised e), m', [(md, rq)])
    | (inr x, m') => (inr x, m', [(md, rq)])
    end.

(** An attribute read or [__json__()]. *)
Definition read {A : Type} (f : store -> A) : action A :=
  fun m => (inr (f m), m, []).

Definition get_node (node_id project_id : string) : action hub_node :=
  perform Direct (GetNode node_id project_id)
    (fun m =>
       (match store_get_node m node_id project_id with
        | Some n => inr n
        | None => inl NotFound
        end, m)).

(** *** The handlers *)

Definition create_ethernet_hub (project_id : string) (d : node_data) : action hub_json :=
  match name d with
  | None => raise (KeyError "name")
  | Some nm =>
      bind (perform Awaited
              (CreateNode nm project_id (node_id d) "ethernet_hub" (ports_mapping d))
              (store_create_node nm project_id (node_id d) "ethernet_hub" (ports_mapping d)))
        (fun node => read (fun m => hub_node_json m node))
  end.

Definition get_ethernet_hub (project_id node_id : string) : action hub_json :=
  bind (get_node node_id project_id)
    (fun node => read (fun m => hub_node_json m node)).

Definition duplicate_ethernet_hub (project_id node_id destination_node_id : string)
    : action hub_json :=
  bind (perform Awaited (DuplicateNode node_id destination_node_id)
          (store_duplicate_node node_id destination_node_id))
    (fun new_node => read (fun m => hub_node_json m new_node)).

Definition update_ethernet_hub (project_id node_id : string) (d : node_data)
    : action hub_json :=
  bind (get_node node_id project_id) (fun node =>
  bind (match name d with
        | Some nm =>
            bind (read (fun m => hub_node_name m node)) (fun current =>
            if String.eqb current nm then ret tt
            else perform Awaited (SetName node nm) (hub_node_set_name node nm))
        | None => ret tt
        end) (fun _ =>
  bind (match ports_mapping d with
        | Some ports =>
            perform Direct (SetPortsMapping node ports) (hub_node_set_ports_mapping node ports)
        | None => ret tt
        end) (fun _ =>
  bind (perform Direct (Updated node) (hub_node_updated node)) (fun _ =>
  read (fun m => hub_node_json m node))))).

Definition delete_ethernet_hub (project_id node_id : string) : action unit :=
  perform Awaited (DeleteNode node_id) (store_delete_node node_id).

End Handlers.

End EthernetHubRecords.

(** Modelled from the spec: a Node has a name, a project, its ports and an
    [updated_at] marker, and is created and destroyed through its backend
    module.  The spec leaves open when a rename raises: in this store it
    raises while the hypervisor it is sent to cannot be reached. *)
Module Registry.
Import EthernetHubNodes EthernetHubRecords.

Record entry := {
  entry_name : string;
  entry_project : string;
  entry_ports : list Z;
  updated_at : nat
}.

Record registry := {
  entries : gmap string entry;
  hypervisor_up : bool
}.

Definition set_entry (node_id : string) (e : entry) (st : registry) : registry :=
  {| entries := <[node_id := e]> (entries st); hypervisor_up := hypervisor_up st |}.

Definition lookup_entry (st : registry) (node_id project_id : string) : option string :=
  match entries st !! node_id with
  | Some e => if String.eqb (entry_project e) project_id then Some node_id else None
  | None => None
  end.

Definition create_entry (nm project_id : string) (requested : option string)
    (node_type : string) (ports : option (list Z)) (st : registry)
    : (error + string) * registry :=
  let node_id := default nm requested in
  match entries st !! node_id with
  | Some _ => (inl Conflict, st)
  | None =>
      (inr node_id,
       set_entry node_id
         {| entry_name := nm; entry_project := project_id;
            entry_ports := default [] ports; updated_at := 0 |} st)
  end.

Definition duplicate_entry (node_id destination : string) (st : registry)
    : (error + string) * registry :=
  match entries st !! node_id, entries st !! destination with
  | Some e, Some d =>
      (inr destination,
       set_entry destination
         {| entry_name := entry_name d; entry_project := entry_project d;
            entry_ports := entry_ports e; updated_at := updated_at d |} st)
  | _, _ => (inl NotFound, st)
  end.

Definition delete_entry (node_id : string) (st : registry) : (error + unit) * registry :=
  match entries st !! node_id with
  | Some _ =>
      (inr tt, {| entries := delete node_id (entries st); hypervisor_up := hypervisor_up st |})
  | None => (inl NotFound, st)
  end.

Definition name_of (st : registry) (node_id : string) : string :=
  match entries st !! node_id with
  | Some e => entry_name e
  | None => ""
  end.

Definition rename (node_id nm : string) (st : registry) : (error + unit) * registry :=
  match entries st !! node_id with
  | None => (inl NotFound, st)
  | Some e =>
      if hypervisor_up st
      then (inr tt,
            set_entry node_id
              {| entry_name := nm; entry_project := entry_project e;
                 entry_ports := entry_ports e; updated_at := updated_at e |} st)
      else (inl (BackendError "hypervisor unreachable"), st)
  end.

Definition set_ports (node_id : string) (ports : list Z) (st : registry)
    : (error + unit) * registry :=
  match entries st !! node_id with
  | None => (inl NotFound, st)
  | Some e =>
      (inr tt,
       set_entry node_id
         {| entry_name := entry_name e; entry_project := entry_project e;
            entry_ports := ports; updated_at := updated_at e |} st)
  end.

Definition touch (node_id : string) (st : registry) : (error + unit) * registry :=
  match entries st !! node_id with
  | None => (inl NotFound, st)
  | Some e =>
      (inr tt,
       set_entry node_id
         {| entry_name := entry_name e; entry_project := entry_project e;
            entry_ports := entry_ports e; updated_at := S (updated_at e) |} st)
  end.

Definition entry_of (st : registry) (node_id : string) : option entry :=
  entries st !! node_id.

#[export] Instance node_store : NodeStore := {|
  store := registry;
  hub_node := string;
  mapping := list Z;
  hub_json := option entry;
  store_create_node := create_entry;
  store_get_node := lookup_entry;
  store_duplicate_node := duplicate_entry;
  store_delete_node := delete_entry;
  hub_node_name := name_of;
  hub_node_set_name := rename;
  hub_node_set_ports_mapping := set_ports;
  hub_node_updated := touch;
  hub_node_json := entry_of
|}.

(** One hub of project p1; the hypervisor is unreachable. *)
Definition offline : registry :=
  {| entries :=
       {[ "hub1" := {| entry_name := "Hub1"; entry_project := "p1";
                       entry_ports := [0; 1; 2]%Z; updated_at := 4 |} ]};
     hypervisor_up := false |}.

(** The same with the hypervisor reachable. *)
Definition online : registry :=
  {| entries := entries offline; hypervisor_up := true |}.

(** A request that renames hub1 and gives it two ports, and one that
    sets the name it has. *)
Definition full_update : @node_data node_store :=
  @Build_node_data node_store (Some "Hub2") None (Some [0; 1]%Z).

Definition same_name : @node_data node_store :=
  @Build_node_data node_store (Some "Hub1") None None.

End Registry.

(** ** Sample configurations *)

Module Samples.
Import Server.

Definition returns_at_once : unload_behaviour :=
  {| suspensions := 0; failure := None |}.

Definition returns_after_waiting : unload_behaviour :=
  {| suspensions := 1; failure := None |}.

(** A server on Linux with two backend modules, no SSL, no live reload. *)
Definition linux_env : environment :=
  {| host := "0.0.0.0"; port := 8000; start_time := 1000;
     sys_platform := "linux";
     sys_executable := "/usr/bin/python3";
     sys_argv := ["/usr/bin/gns3server"; "--debug"];
     sys_modules :=
       [ {| is_module := true; file := Some "/srv/gns3server/server.pyc" |};
         {| is_module := true; file := Some "/srv/gns3server/config.py" |};
         {| is_module := false; file := None |} ];
     MODULES := ["Dynamips"; "VPCS"];
     behaviour := fun _ => returns_at_once;
     ssl := false; debug := false;
     certfile := "server.cert"; certkey := "server.key";
     load_cert_chain := CertLoaded;
     routes := [("GET", "/version")];
     bind_suspensions := 1;
     bind_failure := None |}.

Definition with_behaviour (b : string -> unload_behaviour) (env : environment) : environment :=
  {| host := host env; port := port env; start_time := start_time env;
     sys_platform := sys_platform env; sys_executable := sys_executable env;
     sys_argv := sys_argv env; sys_modules := sys_modules env;
     MODULES := MODULES env; behaviour := b;
     ssl := ssl env; debug := debug env;
     certfile := certfile env; certkey := certkey env;
     load_cert_chain := load_cert_chain env; routes := routes env;
     bind_suspensions := bind_suspensions env; bind_failure := bind_failure env |}.

Definition with_config (ssl_flag debug_flag : bool) (env : environment) : environment :=
  {| host := host env; port := port env; start_time := start_time env;
     sys_platform := sys_platform env; sys_executable := sys_executable env;
     sys_argv := sys_argv env; sys_modules := sys_modules env;
     MODULES := MODULES env; behaviour := behaviour env;
     ssl := ssl_flag; debug := debug_flag;
     certfile := certfile env; certkey := certkey env;
     load_cert_chain := load_cert_chain env; routes := routes env;
     bind_suspensions := bind_suspensions env; bind_failure := bind_failure env |}.

Definition with_platform (platform : string) (env : environment) : environment :=
  {| host := host env; port := port env; start_time := start_time env;
     sys_platform := platform; sys_executable := sys_executable env;
     sys_argv := sys_argv env; sys_modules := sys_modules env;
     MODULES := MODULES env; behaviour := behaviour env;
     ssl := ssl env; debug := debug env;
     certfile := certfile env; certkey := certkey env;
     load_cert_chain := load_cert_chain env; routes := routes env;
     bind_suspensions := bind_suspensions env; bind_failure := bind_failure env |}.

Definition with_bind_failure (e : string) (env : environment) : environment :=
  {| host := host env; port := port env; start_time := start_time env;
     sys_platform := sys_platform env; sys_executable := sys_executable env;
     sys_argv := sys_argv env; sys_modules := sys_modules env;
     MODULES := MODULES env; behaviour := behaviour env;
     ssl := ssl env; debug := debug env;
     certfile := certfile env; certkey := certkey env;
     load_cert_chain := load_cert_chain env; routes := routes env;
     bind_suspensions := bind_suspensions env; bind_failure := Some e |}.

(** The unload of Dynamips raises; the one of VPCS would return. *)
Definition dynamips_fails : environment :=
  with_behaviour
    (fun m => if String.eqb m "Dynamips"
              then {| suspensions := 0; failure := Some "DynamipsError" |}
              else returns_at_once)
    linux_env.

(** Every unload waits once for its child processes. *)
Definition slow_unload : environment :=
  with_behaviour (fun _ => returns_after_waiting) linux_env.

(** Live reload is on and every unload waits once. *)
Definition debug_env : environment := with_config false true slow_unload.

(** Both source files were written after the server started. *)
Definition touched_files : gmap string Z :=
  {[ "/srv/gns3server/server.py" := 2000%Z; "/srv/gns3server/config.py" := 3000%Z ]}.

Definition untouched_files : gmap string Z :=
  {[ "/srv/gns3server/server.py" := 500%Z; "/srv/gns3server/config.py" := 500%Z ]}.

Definition port_in_use : environment :=
  with_bind_failure "[Errno 98] Address already in use" linux_env.

Definition windows_ssl : environment :=
  with_platform "win32" (with_config true false linux_env).

(** Live reload is on and the port is taken. *)
Definition port_in_use_debug : environment := with_config false true port_in_use.


(** SIGTERM, then the loop makes the task and runs its first step. *)
Definition sigterm_started : list action :=
  [Deliver "SIGTERM"; RunOnce; RunOnce].


(** SIGTERM again while the handler is suspended; then the unload of
    Dynamips completes and the loop runs on. *)
Definition sigterm_repeated : process :=
  execute slow_unload
    (sigterm_started ++ [Deliver "SIGTERM"; RunOnce; RunOnce; Complete 0; RunOnce; RunOnce])
    (run slow_unload ∅).

(** SIGTERM alone, then the loop runs. *)
Definition sigterm_only : list action :=
  [Deliver "SIGTERM"; RunOnce; RunOnce; RunOnce].

(** The watch finds two files written after the start; the loop then runs
    the first step of each of the two tasks. *)
Definition two_stale_files : process :=
  execute debug_env [Elapse; RunOnce; RunOnce; RunOnce] (run debug_env touched_files).


(** The loop of the server in debug mode when the watch runs for the
    first time. *)
Definition watching : loop :=
  match execute debug_env [Elapse] (run debug_env touched_files) with
  | Running w => set_ready (drop 1) w
  | _ => fresh_loop
  end.



(** The server with the SSL flag whose certificate file is not there. *)
Definition missing_certificate : environment :=
  {| host := host linux_env; port := port linux_env; start_time := start_time linux_env;
     sys_platform := sys_platform linux_env; sys_executable := sys_executable linux_env;
     sys_argv := sys_argv linux_env; sys_modules := sys_modules linux_env;
     MODULES := MODULES linux_env; behaviour := behaviour linux_env;
     ssl := true; debug := false;
     certfile := certfile linux_env; certkey := certkey linux_env;
     load_cert_chain := CertFileNotFound; routes := routes linux_env;
     bind_suspensions := bind_suspensions linux_env; bind_failure := None |}.

End Samples.

(** ** Sample states of the backend *)

Module HubSamples.
Import EthernetHubNodes Dynamips.

Definition tunnel : udp_nio :=
  {| lport := 10000; rhost := "127.0.0.1"; rport := 10001 |}.

(** A hub of project p1 whose port 0 holds endpoint 0. *)
Definition hub1 : hub :=
  {| project := "p1";
     capture_directory := "/projects/p1/tmp/captures";
     ports := [0; 1; 2]%Z;
     mappings := {[ 0%Z := 0 ]} |}.

(** Endpoint 0 is attached to port 0 of hub1 and a capture runs on it. *)
Definition capturing : state :=
  {| nodes := {[ "hub1" := hub1 ]};
     endpoints :=
       {[ 0 := {| transport := tunnel;
                  capture := Some ("/projects/p1/tmp/captures/cap1.pcap", "DLT_EN10MB") |} ]};
     next_endpoint := 1 |}.

(** The first turn of a detach of port 0: the handler is suspended after
    its first awaited call. *)
Definition detach_started : progress unit * state :=
  turn (delete_nio "p1" "hub1" 0 0) capturing.

(** What another request finds while the detach is suspended. *)
Definition seen_meanwhile : (error + option string) * state * list invoked :=
  run_handler (stream_pcap_file "p1" "hub1" 0 0) detach_started.2.

(** The detach gets its second turn. *)
Definition detach_finished : progress unit * state :=
  next_turn detach_started.1 detach_started.2.

End HubSamples.

(** ** What holds while the server runs *)

Module ServerInvariants.
Import Server.

(** What holds of a running loop: the calls a coroutine has made, followed
    by the calls it has left, are an initial part of the calls of its body
    (all of them until an early resume ends the generator); a coroutine
    that does not exist has made no call. *)
Record coherent (env : environment) (w : loop) : Prop := {
  handler_progress s c :
    handlers w !! s = Some c →
    calls_by (Handler s) (trace w) ++ events_of c
      `prefix_of` events_of (signal_handler env s);
  handler_absent s :
    handlers w !! s = None → calls_by (Handler s) (trace w) = [];
  reload_progress n c :
    reloads w !! n = Some c →
    calls_by (Reloader n) (trace w) ++ events_of c `prefix_of` events_of (reload env);
  reload_absent n :
    reloads w !! n = None → calls_by (Reloader n) (trace w) = []
}.

(** The calls of every coroutine are an initial part of one run of its
    body. *)
Definition bounded (env : environment) (tr : list (origin * event)) : Prop :=
  (∀ s, calls_by (Handler s) tr `prefix_of` events_of (signal_handler env s)) ∧
  (∀ n, calls_by (Reloader n) tr `prefix_of` events_of (reload env)).

(** What holds of the process at every moment.  A process replaced by
    [os.execv] was replaced by a reload coroutine that had made every call
    of its body. *)
Definition sound (env : environment) (p : process) : Prop :=
  match p with
  | Running w => coherent env w
  | Ended tr | Died tr _ => bounded env tr
  | Execd tr path args =>
      bounded env tr ∧
      ∃ n, calls_by (Reloader n) tr = events_of (reload env) ∧
           Execv path args ∈ events_of (reload env) ∧
           path = sys_executable env ∧
           args = sys_executable env :: sys_argv env
  end.

(** The loop while [run] sets it up: only [run] has made calls, no reload
    exists, the handler coroutines have not started, and nothing is ready
    but a pending stop. *)
Record pristine (env : environment) (w : loop) : Prop := {
  pristine_trace oe : oe ∈ trace w → oe.1 = Main;
  pristine_reloads : reloads w = [];
  pristine_handlers s c : handlers w !! s = Some c → c = signal_handler env s;
  pristine_ready cb : cb ∈ ready w → cb = RaiseStop;
  pristine_scheduled cb : cb ∈ scheduled w → cb = ReloadHook;
  pristine_waiting : waiting w = []
}.


End ServerInvariants.

(** ** Driving the loop *)

Module Schedules.
Import Server ServerInvariants.

(** The loop runs its next callback, then what the first waiting task
    awaits completes; [k] times over. *)
Fixpoint cycles (k : nat) : list action :=
  match k with
  | O => []
  | S k' => RunOnce :: Complete 0 :: cycles k'
  end.

(** The suspension points of a coroutine. *)
Fixpoint yields (c : coro) : nat :=
  match c with
  | Return | Throw _ | Exec _ _ => 0
  | Do _ k => yields k
  | Yield k => S (yields k)
  end.

(** A coroutine that returns without stopping the loop, raising or
    replacing the process. *)
Fixpoint plain (c : coro) : Prop :=
  match c with
  | Return => True
  | Throw _ | Exec _ _ => False
  | Do e k => e ≠ LoopStop ∧ plain k
  | Yield k => plain k
  end.

(** A coroutine that returns right after its only [loop.stop()]. *)
Fixpoint stops_last (c : coro) : Prop :=
  match c with
  | Return | Throw _ | Exec _ _ => False
  | Do e k =>
      match k with
      | Return => e = LoopStop
      | _ => e ≠ LoopStop ∧ stops_last k
      end
  | Yield k => stops_last k
  end.

(** The calls of the body of the coroutine that [o] names. *)
Definition body_calls (env : environment) (o : origin) : list event :=
  match o with
  | Handler s => events_of (signal_handler env s)
  | Reloader _ => events_of (reload env)
  | Main | Watch => []
  end.

(** The loop in which nothing can end [run_forever]. *)
Definition never_stopping (env : environment) (p : process) : Prop :=
  match p with
  | Running w =>
      coherent env w ∧
      ∀ cb, cb ∈ ready w ++ scheduled w ++ waiting w → cb ≠ RaiseStop
  | _ => False
  end.

(** The suspensions of all the unloads of the registry. *)
Definition total_suspensions (env : environment) : nat :=
  sum_list ((λ m, suspensions (behaviour env m)) <$> MODULES env).

(** The loop of a server whose watch is off: no scan is ready, scheduled
    or waiting and no reload exists; such a process is never replaced. *)
Definition without_watch (env : environment) (p : process) : Prop :=
  match p with
  | Running w =>
      coherent env w ∧ reloads w = [] ∧
      ∀ cb, cb ∈ ready w ++ scheduled w ++ waiting w → cb ≠ ReloadHook
  | Execd _ _ _ => False
  | _ => True
  end.


(** The scans in a queue. *)
Definition hooks (q : list callback) : nat :=
  length (filter (λ cb, cb = ReloadHook) q).

(** The loop in which at most one scan is ready or scheduled. *)
Definition one_scan (p : process) : Prop :=
  match p with
  | Running w => (hooks (ready w) + hooks (scheduled w) ≤ 1)%nat ∧ hooks (waiting w) = 0
  | _ => True
  end.

(** The callbacks of the reload watch that are ready or scheduled. *)
Definition pending_hooks (w : loop) : nat :=
  length (filter (λ cb, cb = ReloadHook) (ready w ++ scheduled w)).

(** The calls of [run] before it binds the listener. *)
Definition calls_before_bind (env : environment) : list event :=
  flat_map (λ '(method, route),
              [Log DEBUG ("Adding route: " +:+ method +:+ " " +:+ route);
               AddRoute method route]) (routes env) ++
  flat_map (λ module, [Log DEBUG ("Loading module " +:+ module);
                       SetPortManager module]) (MODULES env) ++
  [Log INFO ("Starting server on " +:+ host env +:+ ":" +:+ pretty (port env))].

(** The calls of [run] from [_signal_handling] on. *)
Definition calls_after_bind (env : environment) : list event :=
  ((if windows env then SignalSignal else AddSignalHandler) <$> signals env) ++
  (if debug env
   then [Log INFO "Code live reload is enabled, watching for file changes"; CallLater 1]
   else []).

End Schedules.

(** ** Properties of server.py *)

Module ServerProofs.
Import Server Samples ServerInvariants.

(** *** Coroutines driven on their own *)

Lemma events_yield_from c k :
  events_of (yield_from c k) =
  events_of c ++ match outcome_of c with Returned => events_of k | _ => [] end.
Proof.
  induction c as [| exc | e c IH | c IH | path args]; simpl.
  - reflexivity.
  - reflexivity.
  - by rewrite IH.
  - exact IH.
  - reflexivity.
Qed.

Lemma outcome_yield_from c k :
  outcome_of (yield_from c k) =
  match outcome_of c with Returned => outcome_of k | o => o end.
Proof. induction c; simpl; auto. Qed.

Lemma events_suspend n k : events_of (suspend n k) = events_of k.
Proof. induction n; simpl; auto. Qed.

Lemma outcome_suspend n k : outcome_of (suspend n k) = outcome_of k.
Proof. induction n; simpl; auto. Qed.

Lemma unload_step_ok env m :
  ¬ raises env m →
  events_of (unload_step env m) = unloaded m ∧
  outcome_of (unload_step env m) = Returned.
Proof.
  intros Hok. unfold unload_step, unload, unloaded, raises in *. simpl.
  rewrite events_suspend, outcome_suspend.
  destruct (failure (behaviour env m)) as [exc|]; [|done].
  exfalso. apply Hok. by exists exc.
Qed.

Lemma unload_step_fail env m exc :
  failure (behaviour env m) = Some exc →
  events_of (unload_step env m) = [Log DEBUG ("Unloading module " +:+ m); UnloadCall m] ∧
  outcome_of (unload_step env m) = Raised exc.
Proof.
  intros Hf. unfold unload_step, unload. simpl.
  by rewrite events_suspend, outcome_suspend, Hf.
Qed.

(** The loop over a run of modules whose unload returns, then the rest. *)
Lemma for_each_ok env pre rest after :
  Forall (λ m, ¬ raises env m) pre →
  events_of (for_each (unload_step env) (pre ++ rest) after) =
    flat_map unloaded pre ++ events_of (for_each (unload_step env) rest after) ∧
  outcome_of (for_each (unload_step env) (pre ++ rest) after) =
    outcome_of (for_each (unload_step env) rest after).
Proof.
  induction 1 as [| m pre Hm _ [IHe IHo]]; [done|].
  destruct (unload_step_ok env m Hm) as [He Ho].
  cbn [app for_each flat_map].
  rewrite events_yield_from, outcome_yield_from, He, Ho, IHe, IHo.
  by rewrite <- app_assoc.
Qed.

Lemma for_each_fail env m rest after exc :
  failure (behaviour env m) = Some exc →
  events_of (for_each (unload_step env) (m :: rest) after) =
    [Log DEBUG ("Unloading module " +:+ m); UnloadCall m] ∧
  outcome_of (for_each (unload_step env) (m :: rest) after) = Raised exc.
Proof.
  intros Hf. destruct (unload_step_fail env m exc Hf) as [He Ho].
  cbn [for_each]. rewrite events_yield_from, outcome_yield_from, He, Ho.
  by rewrite app_nil_r.
Qed.

Lemma unload_calls_app tr1 tr2 :
  unload_calls (tr1 ++ tr2) = unload_calls tr1 ++ unload_calls tr2.
Proof. apply omap_app. Qed.

Lemma unload_returns_app tr1 tr2 :
  unload_returns (tr1 ++ tr2) = unload_returns tr1 ++ unload_returns tr2.
Proof. apply omap_app. Qed.

Lemma unload_calls_unloaded ms : unload_calls (flat_map unloaded ms) = ms.
Proof. induction ms as [|m ms IH]; simpl; [done|]. by f_equal. Qed.

Lemma unload_returns_unloaded ms : unload_returns (flat_map unloaded ms) = ms.
Proof. induction ms as [|m ms IH]; simpl; [done|]. by f_equal. Qed.

Lemma LoopStop_not_unloaded ms : LoopStop ∉ flat_map unloaded ms.
Proof.
  induction ms as [|m ms IH]; simpl.
  - apply not_elem_of_nil.
  - rewrite !not_elem_of_cons. naive_solver.
Qed.

(** Every list of modules splits at the first one whose unload raises. *)
Lemma split_at_first_failure env ms :
  Forall (λ m, ¬ raises env m) ms ∨
  ∃ pre m post exc, ms = pre ++ m :: post ∧
    Forall (λ m, ¬ raises env m) pre ∧ failure (behaviour env m) = Some exc.
Proof.
  induction ms as [|m ms IH]; [by left|].
  destruct (decide (raises env m)) as [[exc Hexc]|Hm].
  - right. by exists [], m, ms, exc.
  - destruct IH as [IH | (pre & m' & post & exc & -> & Hpre & Hexc)].
    + left. by constructor.
    + right. exists (m :: pre), m', post, exc. repeat split; auto.
Qed.

(** The two shapes of a run of [_stop_application]. *)
Lemma stop_application_all_ok env :
  Forall (λ m, ¬ raises env m) (MODULES env) →
  events_of (_stop_application env) = flat_map unloaded (MODULES env) ++ [LoopStop] ∧
  outcome_of (_stop_application env) = Returned.
Proof.
  intros Hok. unfold _stop_application.
  rewrite <- (app_nil_r (MODULES env)) at 1 3.
  destruct (for_each_ok env (MODULES env) [] (Do LoopStop Return) Hok) as [-> ->].
  done.
Qed.

Lemma stop_application_failure env pre m post exc :
  MODULES env = pre ++ m :: post →
  Forall (λ m, ¬ raises env m) pre →
  failure (behaviour env m) = Some exc →
  events_of (_stop_application env) =
    flat_map unloaded pre ++ [Log DEBUG ("Unloading module " +:+ m); UnloadCall m] ∧
  outcome_of (_stop_application env) = Raised exc.
Proof.
  intros HM Hpre Hexc. unfold _stop_application.
  rewrite HM.
  destruct (for_each_ok env pre (m :: post) (Do LoopStop Return) Hpre) as [-> ->].
  by destruct (for_each_fail env m post (Do LoopStop Return) exc Hexc) as [-> ->].
Qed.

(** A run in which no unload raises. *)
Lemma stop_application_complete env :
  Forall (λ m, ¬ raises env m) (MODULES env) →
  unload_calls (events_of (_stop_application env)) = MODULES env ∧
  unload_returns (events_of (_stop_application env)) = MODULES env ∧
  LoopStop ∈ events_of (_stop_application env) ∧
  outcome_of (_stop_application env) = Returned.
Proof.
  intros Hok. destruct (stop_application_all_ok env Hok) as [-> ->].
  rewrite unload_calls_app, unload_returns_app.
  rewrite unload_calls_unloaded, unload_returns_unloaded. simpl.
  rewrite !app_nil_r. repeat split; auto.
  apply elem_of_app. right. apply list_elem_of_singleton. reflexivity.
Qed.

(** A list that ends in its only occurrence of [x] splits at [x] in one
    way. *)
Lemma split_at_last {A} (x : A) l pre post :
  x ∉ l → l ++ [x] = pre ++ x :: post → pre = l ∧ post = [].
Proof.
  revert pre. induction l as [|a l IH]; intros pre Hx Heq.
  - destruct pre as [|b pre]; simplify_eq/=; [done|].
    by destruct pre.
  - apply not_elem_of_cons in Hx as [Hxa Hx].
    destruct pre as [|b pre]; simplify_eq/=.
    destruct (IH pre Hx) as [-> ->]; auto.
Qed.

(** Splitting a run at a call of [unload]: the unloads called before it
    have all returned. *)
Lemma split_at_unload_call good tail pre m post :
  flat_map unloaded good ++ tail = pre ++ UnloadCall m :: post →
  (∀ pre' post', tail = pre' ++ UnloadCall m :: post' →
                 unload_returns pre' = unload_calls pre') →
  unload_returns pre = unload_calls pre.
Proof.
  revert pre. induction good as [|g good IH]; intros pre Heq Htail.
  - by eapply Htail.
  - destruct pre as [|a [|b [|c pre]]]; simplify_eq/=; [done|].
    f_equal. by eapply IH.
Qed.

(** C1 (amended).  [_stop_application] unloads the modules in
    registration order up to the first unload that raises: the exception
    leaves the coroutine, so the modules registered after the failing one
    are not unloaded and [loop.stop()] is not reached.  When no unload
    raises, every module has its unload invoked once and the loop is
    stopped. *)
Theorem stop_application_stops_at_first_failure env :
  (Forall (λ m, ¬ raises env m) (MODULES env) →
     unload_calls (events_of (_stop_application env)) = MODULES env ∧
     unload_returns (events_of (_stop_application env)) = MODULES env ∧
     LoopStop ∈ events_of (_stop_application env) ∧
     outcome_of (_stop_application env) = Returned) ∧
  (∀ pre m post exc,
     MODULES env = pre ++ m :: post →
     Forall (λ m, ¬ raises env m) pre →
     failure (behaviour env m) = Some exc →
     unload_calls (events_of (_stop_application env)) = pre ++ [m] ∧
     unload_returns (events_of (_stop_application env)) = pre ∧
     (LoopStop ∉ events_of (_stop_application env)) ∧
     outcome_of (_stop_application env) = Raised exc).
Proof.
  split.
  - apply stop_application_complete.
  - intros pre m post exc HM Hpre Hexc.
    destruct (stop_application_failure env pre m post exc HM Hpre Hexc) as [-> ->].
    rewrite unload_calls_app, unload_returns_app.
    rewrite unload_calls_unloaded, unload_returns_unloaded. simpl.
    rewrite app_nil_r. repeat split; auto.
    rewrite elem_of_app, !elem_of_cons, elem_of_nil.
    intros [Hin | [Hin | [Hin | []]]]; [|done..].
    by apply (LoopStop_not_unloaded pre).
Qed.

Lemma stop_application_stops_at_first_failure_witness :
  (unload_calls (events_of (_stop_application linux_env)) = ["Dynamips"; "VPCS"] ∧
   LoopStop ∈ events_of (_stop_application linux_env)) ∧
  (unload_calls (events_of (_stop_application dynamips_fails)) = ["Dynamips"] ∧
   unload_returns (events_of (_stop_application dynamips_fails)) = [] ∧
   (LoopStop ∉ events_of (_stop_application dynamips_fails)) ∧
   outcome_of (_stop_application dynamips_fails) = Raised "DynamipsError").
Proof.
  split.
  - destruct (stop_application_stops_at_first_failure linux_env) as [Hok _].
    destruct Hok as (H1 & _ & H3 & _).
    + repeat constructor; vm_compute; intros [x Hx]; discriminate.
    + split; [exact H1 | exact H3].
  - destruct (stop_application_stops_at_first_failure dynamips_fails) as [_ Hfail].
    apply (Hfail [] "Dynamips" ["VPCS"] "DynamipsError").
    + reflexivity.
    + constructor.
    + reflexivity.
Defined.

(** C1 as stated fails: when the unload of Dynamips raises, VPCS is never
    unloaded and the loop is never stopped. *)
Lemma unload_failure_skips_later_modules :
  unload_calls (events_of (_stop_application dynamips_fails)) = ["Dynamips"] ∧
  "VPCS" ∈ MODULES dynamips_fails ∧
  ("VPCS" ∉ unload_calls (events_of (_stop_application dynamips_fails))) ∧
  (LoopStop ∉ events_of (_stop_application dynamips_fails)) ∧
  outcome_of (_stop_application dynamips_fails) = Raised "DynamipsError".
Proof. repeat split; compute_done. Qed.

(** C2.  [_stop_application] calls the unloads in registration order (the
    calls form a prefix of the registry, the whole registry when none
    raises); when an unload is called, every unload called before it has
    returned; and [loop.stop()] is called only when the unload of every
    module has returned, as the last call of the coroutine. *)
Theorem stop_application_in_registration_order env :
  unload_calls (events_of (_stop_application env)) `prefix_of` MODULES env ∧
  (∀ pre m post,
     events_of (_stop_application env) = pre ++ UnloadCall m :: post →
     unload_returns pre = unload_calls pre) ∧
  (∀ pre post,
     events_of (_stop_application env) = pre ++ LoopStop :: post →
     unload_returns pre = MODULES env ∧ post = []) ∧
  (Forall (λ m, ¬ raises env m) (MODULES env) →
     unload_calls (events_of (_stop_application env)) = MODULES env ∧
     unload_returns (events_of (_stop_application env)) = MODULES env ∧
     ∃ pre, events_of (_stop_application env) = pre ++ [LoopStop]).
Proof.
  destruct (split_at_first_failure env (MODULES env))
    as [Hok | (good & m & rest & exc & HM & Hgood & Hexc)].
  - destruct (stop_application_all_ok env Hok) as [Hev _]. rewrite Hev.
    rewrite unload_calls_app, unload_returns_app,
      unload_calls_unloaded, unload_returns_unloaded. simpl. rewrite !app_nil_r.
    split; [done|]. split; [|split].
    + intros pre m post Heq. eapply split_at_unload_call; [exact Heq|].
      intros [|a [|b pre']] post' Hsplit; simplify_eq/=.
    + intros pre post Heq.
      destruct (split_at_last LoopStop _ pre post (LoopStop_not_unloaded _) Heq) as [-> ->].
      by rewrite unload_returns_unloaded.
    + intros _. repeat split; eauto.
  - destruct (stop_application_failure env good m rest exc HM Hgood Hexc) as [Hev _].
    rewrite Hev.
    rewrite unload_calls_app, unload_calls_unloaded. simpl.
    split; [|split; [|split]].
    + rewrite HM. apply prefix_app, prefix_cons, prefix_nil.
    + intros pre m' post Heq. eapply split_at_unload_call; [exact Heq|].
      intros [|a [|b [|c pre']]] post' Hsplit; simplify_eq/=. done.
    + intros pre post Heq. exfalso.
      assert (LoopStop ∈ flat_map unloaded good ++
                [Log DEBUG ("Unloading module " +:+ m); UnloadCall m]) as Hin.
      { rewrite Heq. apply elem_of_app. right. left. }
      rewrite elem_of_app, !elem_of_cons, elem_of_nil in Hin.
      destruct Hin as [Hin | [Hin | [Hin | []]]]; [|done..].
      by apply (LoopStop_not_unloaded good).
    + intros Hok. exfalso. rewrite HM in Hok.
      apply Forall_app in Hok as [_ Hok]. apply Forall_cons in Hok as [Hm _].
      apply Hm. by exists exc.
Qed.

Lemma stop_application_in_registration_order_witness :
  unload_calls (events_of (_stop_application slow_unload)) = ["Dynamips"; "VPCS"] ∧
  unload_returns (events_of (_stop_application slow_unload)) = ["Dynamips"; "VPCS"] ∧
  unload_returns [Log DEBUG "Unloading module Dynamips"; UnloadCall "Dynamips";
                  UnloadDone "Dynamips"; Log DEBUG "Unloading module VPCS"] =
  unload_calls [Log DEBUG "Unloading module Dynamips"; UnloadCall "Dynamips";
                UnloadDone "Dynamips"; Log DEBUG "Unloading module VPCS"].
Proof.
  destruct (stop_application_in_registration_order slow_unload)
    as (_ & Hcall & _ & Hall).
  destruct Hall as (H1 & H2 & _).
  - repeat constructor; vm_compute; intros [x Hx]; discriminate.
  - split; [exact H1|]. split; [exact H2|].
    apply (Hcall _ "VPCS" [UnloadDone "VPCS"; LoopStop]). reflexivity.
Defined.

(** *** The loop: what each coroutine has done and has left to do *)

#[local] Arguments emit : simpl never.
#[local] Arguments emit_all : simpl never.
#[local] Arguments spawn_reload : simpl never.

Lemma resume_events c :
  events_of c = (resume c).1.1 ++ events_of (resume c).1.2.
Proof.
  induction c as [| exc | e c IH | c IH | path args]; simpl; try done.
  destruct (resume c) as [[es c'] st]. simpl in *. by f_equal.
Qed.

Lemma resume_execed c path args :
  (resume c).2 = Execed path args → (resume c).1.2 = Exec path args.
Proof.
  induction c as [| exc | e c IH | c IH | p a]; simpl; try done.
  - destruct (resume c) as [[es c'] st]. simpl in *. auto.
  - by intros [= -> ->].
Qed.

Lemma calls_by_app o tr1 tr2 :
  calls_by o (tr1 ++ tr2) = calls_by o tr1 ++ calls_by o tr2.
Proof. apply omap_app. Qed.

Lemma calls_by_same o es : calls_by o ((o,.) <$> es) = es.
Proof.
  induction es as [|e es IH]; [done|].
  unfold calls_by in *. simpl. rewrite decide_True by done. by f_equal.
Qed.

Lemma calls_by_other o o' es : o' ≠ o → calls_by o ((o',.) <$> es) = [].
Proof.
  intros Hne. induction es as [|e es IH]; [done|].
  unfold calls_by in *. simpl. by rewrite decide_False.
Qed.

Lemma emit_waiting o e w : waiting (emit o e w) = waiting w.
Proof. unfold emit. by destruct e. Qed.

Lemma emit_all_waiting o es w : waiting (emit_all o es w) = waiting w.
Proof.
  unfold emit_all. revert w. induction es as [|e es IH]; intros w; simpl; [done|].
  by rewrite IH, emit_waiting.
Qed.

Lemma emit_fields o e w :
  handlers (emit o e w) = handlers w ∧ reloads (emit o e w) = reloads w ∧
  scheduled (emit o e w) = scheduled w ∧ mtimes (emit o e w) = mtimes w ∧
  trace (emit o e w) = trace w ++ [(o, e)] ∧
  ∃ k, ready (emit o e w) = ready w ++ replicate k RaiseStop.
Proof.
  unfold emit. destruct e; simpl; repeat split; try done;
    first [ by exists 0; rewrite app_nil_r | by exists 1 ].
Qed.

Lemma emit_all_fields o es w :
  handlers (emit_all o es w) = handlers w ∧ reloads (emit_all o es w) = reloads w ∧
  scheduled (emit_all o es w) = scheduled w ∧ mtimes (emit_all o es w) = mtimes w ∧
  trace (emit_all o es w) = trace w ++ ((o,.) <$> es) ∧
  ∃ k, ready (emit_all o es w) = ready w ++ replicate k RaiseStop.
Proof.
  unfold emit_all. revert w. induction es as [|e es IH]; intros w; simpl.
  - repeat split; try done; [by rewrite app_nil_r|]. exists 0. by rewrite app_nil_r.
  - destruct (IH (emit o e w)) as (-> & -> & -> & -> & -> & k & ->).
    destruct (emit_fields o e w) as (-> & -> & -> & -> & -> & k' & ->).
    repeat split; try done; [by rewrite <- app_assoc|].
    exists (k' + k). by rewrite <- app_assoc, replicate_add.
Qed.

(** No coroutine of the file but [reload] calls [os.execv], and [reload]
    calls it with the interpreter and the arguments of the process. *)
Lemma stop_application_no_execv env path args :
  Execv path args ∉ events_of (_stop_application env).
Proof.
  assert (∀ ms, Execv path args ∉ flat_map unloaded ms) as Hfree.
  { induction ms as [|m ms IH]; simpl; [apply not_elem_of_nil|].
    rewrite !not_elem_of_cons. naive_solver. }
  destruct (split_at_first_failure env (MODULES env))
    as [Hok | (good & m & rest & exc & HM & Hgood & Hexc)].
  - destruct (stop_application_all_ok env Hok) as [-> _].
    rewrite elem_of_app, elem_of_cons, elem_of_nil.
    intros [Hin | [Hin | []]]; [by eapply Hfree | done].
  - destruct (stop_application_failure env good m rest exc HM Hgood Hexc) as [-> _].
    rewrite elem_of_app, !elem_of_cons, elem_of_nil.
    intros [Hin | [Hin | [Hin | []]]]; [by eapply Hfree | done..].
Qed.

Lemma signal_handler_events env s :
  events_of (signal_handler env s) =
  Log WARNING ("Server has got signal " +:+ s +:+ ", exiting...")
    :: events_of (_stop_application env).
Proof.
  unfold signal_handler. simpl. rewrite events_yield_from.
  destruct (outcome_of (_stop_application env)); by rewrite app_nil_r.
Qed.

Lemma reload_events env :
  events_of (reload env) =
  Log INFO "Reloading" :: events_of (_stop_application env) ++
    match outcome_of (_stop_application env) with
    | Returned => [Execv (sys_executable env) (sys_executable env :: sys_argv env)]
    | _ => []
    end.
Proof. unfold reload. simpl. by rewrite events_yield_from. Qed.

Lemma signal_handler_no_execv env s path args :
  Execv path args ∉ events_of (signal_handler env s).
Proof.
  rewrite signal_handler_events, not_elem_of_cons. split; [done|].
  apply stop_application_no_execv.
Qed.

Lemma reload_execv env path args :
  Execv path args ∈ events_of (reload env) →
  path = sys_executable env ∧ args = sys_executable env :: sys_argv env.
Proof.
  rewrite reload_events, elem_of_cons, elem_of_app.
  intros [Hin | [Hin | Hin]]; [done | by apply stop_application_no_execv in Hin |].
  destruct (outcome_of (_stop_application env));
    [|by apply elem_of_nil in Hin..].
  apply list_elem_of_singleton in Hin. by injection Hin as -> ->.
Qed.

Lemma coherent_ext env w w' :
  handlers w' = handlers w → reloads w' = reloads w → trace w' = trace w →
  coherent env w → coherent env w'.
Proof.
  intros Hh Hr Ht [H1 H2 H3 H4].
  split; rewrite ?Hh, ?Hr, ?Ht; auto.
Qed.

(** Calls made by [run] itself or by the watch leave it as it is. *)
Lemma coherent_foreign env w w' o es :
  (∀ s, o ≠ Handler s) → (∀ n, o ≠ Reloader n) →
  handlers w' = handlers w → reloads w' = reloads w →
  trace w' = trace w ++ ((o,.) <$> es) →
  coherent env w → coherent env w'.
Proof.
  intros Ho1 Ho2 Hh Hr Ht [H1 H2 H3 H4].
  split; rewrite ?Hh, ?Hr, ?Ht; intros;
    rewrite calls_by_app, calls_by_other, app_nil_r; auto.
Qed.

Lemma coherent_emit env w o e :
  (∀ s, o ≠ Handler s) → (∀ n, o ≠ Reloader n) →
  coherent env w → coherent env (emit o e w).
Proof.
  intros Ho1 Ho2. destruct (emit_fields o e w) as (Hh & Hr & _ & _ & Ht & _).
  by apply (coherent_foreign env w _ o [e]).
Qed.

Lemma coherent_emit_all env w o es :
  (∀ s, o ≠ Handler s) → (∀ n, o ≠ Reloader n) →
  coherent env w → coherent env (emit_all o es w).
Proof.
  intros Ho1 Ho2. destruct (emit_all_fields o es w) as (Hh & Hr & _ & _ & Ht & _).
  by apply (coherent_foreign env w _ o es).
Qed.

Lemma coherent_spawn_reload env w :
  coherent env w → coherent env (spawn_reload env w).
Proof.
  intros [H1 H2 H3 H4]. unfold spawn_reload. split; simpl; auto.
  - intros n c Hn. apply lookup_app_Some in Hn as [Hn | [Hlen Hn]]; [by auto|].
    apply list_lookup_singleton_Some in Hn as [Hn <-].
    rewrite H4; [done|]. apply lookup_ge_None. lia.
  - intros n Hn. apply H4. apply lookup_ge_None.
    apply lookup_ge_None in Hn. rewrite length_app in Hn. simpl in Hn. lia.
Qed.

Lemma coherent_scan env mods w :
  coherent env w → coherent env (scan env mods w).1.
Proof.
  revert w. induction mods as [|m mods IH]; intros w Hw; simpl; [done|].
  destruct (watched_path m) as [path|]; [|by apply IH].
  destruct (mtimes w !! _) as [modified|]; [|done].
  destruct (start_time env <? modified)%Z; [|by apply IH].
  apply IH, coherent_spawn_reload, coherent_emit; done.
Qed.

Lemma coherent_reload_hook env w :
  coherent env w → coherent env (_reload_hook env w).
Proof.
  intros Hw. unfold _reload_hook.
  pose proof (coherent_scan env (sys_modules env) w Hw) as Hs.
  destruct (scan env (sys_modules env) w) as [w' ok]. simpl in Hs.
  destruct ok; [|done].
  eapply coherent_ext; [..|apply coherent_emit, Hs]; done.
Qed.

(** A step of a task on a coroutine that does not reach [os.execv]. *)
Lemma coherent_step env w o c :
  coherent env w → lookup_coro o w = Some c →
  coherent env (store_coro o (resume c).1.2 (emit_all o (resume c).1.1 w)).
Proof.
  intros [H1 H2 H3 H4] Hc.
  destruct (emit_all_fields o (resume c).1.1 w) as (Hh & Hr & _ & _ & Ht & _).
  pose proof (resume_events c) as Hev.
  destruct o as [| s | n |]; simpl in Hc; try done.
  - split; simpl; rewrite ?Hh, ?Hr, ?Ht.
    + intros s' c' Hs'. rewrite calls_by_app.
      destruct (decide (s = s')) as [<-|Hne].
      * rewrite lookup_insert_eq in Hs'. simplify_eq.
        rewrite calls_by_same, <- app_assoc, <- Hev. by apply H1.
      * rewrite lookup_insert_ne in Hs' by done.
        rewrite calls_by_other, app_nil_r by congruence. by apply H1.
    + intros s' Hs'. rewrite calls_by_app.
      destruct (decide (s = s')) as [<-|Hne].
      * by rewrite lookup_insert_eq in Hs'.
      * rewrite lookup_insert_ne in Hs' by done.
        rewrite calls_by_other, app_nil_r by congruence. by apply H2.
    + intros n c' Hn. rewrite calls_by_app, calls_by_other, app_nil_r by done.
      by apply H3.
    + intros n Hn. rewrite calls_by_app, calls_by_other, app_nil_r by done.
      by apply H4.
  - assert (n < length (reloads w)) as Hlt by (by eapply lookup_lt_Some).
    split; simpl; rewrite ?Hh, ?Hr, ?Ht.
    + intros s c' Hs. rewrite calls_by_app, calls_by_other, app_nil_r by done.
      by apply H1.
    + intros s Hs. rewrite calls_by_app, calls_by_other, app_nil_r by done.
      by apply H2.
    + intros n' c' Hn'. rewrite calls_by_app.
      destruct (decide (n = n')) as [<-|Hne].
      * rewrite list_lookup_insert_eq in Hn' by done. simplify_eq.
        rewrite calls_by_same, <- app_assoc, <- Hev. by apply H3.
      * rewrite list_lookup_insert_ne in Hn' by done.
        rewrite calls_by_other, app_nil_r by congruence. by apply H3.
    + intros n' Hn'. rewrite calls_by_app.
      destruct (decide (n = n')) as [<-|Hne].
      * apply lookup_ge_None in Hn'. rewrite length_insert in Hn'. lia.
      * rewrite list_lookup_insert_ne in Hn' by done.
        rewrite calls_by_other, app_nil_r by congruence. by apply H4.
Qed.

Lemma coherent_bounded env w : coherent env w → bounded env (trace w).
Proof.
  intros [H1 H2 H3 H4]. split.
  - intros s. destruct (handlers w !! s) as [c|] eqn:Hs.
    + rewrite <- (H1 s c Hs). by apply prefix_app_r.
    + rewrite (H2 s Hs). apply prefix_nil.
  - intros n. destruct (reloads w !! n) as [c|] eqn:Hn.
    + rewrite <- (H3 n c Hn). by apply prefix_app_r.
    + rewrite (H4 n Hn). apply prefix_nil.
Qed.


(** An early resume ends the generator where it is. *)
Lemma coherent_kill env w o c exc :
  coherent env w → lookup_coro o w = Some c →
  coherent env (store_coro o (Throw exc) w).
Proof.
  intros [H1 H2 H3 H4] Hc.
  destruct o as [| s | n |]; simpl in Hc; try done.
  - split; simpl; auto.
    + intros s' c' Hs'. destruct (decide (s = s')) as [<-|Hne].
      * rewrite lookup_insert_eq in Hs'. simplify_eq. simpl. rewrite app_nil_r.
        etrans; [|by apply (H1 s c)]. by apply prefix_app_r.
      * rewrite lookup_insert_ne in Hs' by done. by apply H1.
    + intros s' Hs'. destruct (decide (s = s')) as [<-|Hne].
      * by rewrite lookup_insert_eq in Hs'.
      * rewrite lookup_insert_ne in Hs' by done. by apply H2.
  - assert (n < length (reloads w)) as Hlt by (by eapply lookup_lt_Some).
    split; simpl; auto.
    + intros n' c' Hn'. destruct (decide (n = n')) as [<-|Hne].
      * rewrite list_lookup_insert_eq in Hn' by done. simplify_eq. simpl.
        rewrite app_nil_r. etrans; [|by apply (H3 n c)]. by apply prefix_app_r.
      * rewrite list_lookup_insert_ne in Hn' by done. by apply H3.
    + intros n' Hn'. apply H4. apply lookup_ge_None.
      apply lookup_ge_None in Hn'. by rewrite length_insert in Hn'.
Qed.

(** [os.execv] is the last call of [reload]: calls of it that end with
    [os.execv] are all its calls. *)
Lemma reload_execv_last env l path args :
  l ++ [Execv path args] `prefix_of` events_of (reload env) →
  l ++ [Execv path args] = events_of (reload env).
Proof.
  intros [k Hk]. rewrite Hk.
  destruct k as [|x k _] using rev_ind; [by rewrite app_nil_r|].
  exfalso. rewrite reload_events in Hk.
  assert (Execv path args ∉
            Log INFO "Reloading" :: events_of (_stop_application env)) as Hfree.
  { rewrite not_elem_of_cons. split; [done|]. apply stop_application_no_execv. }
  apply Hfree.
  destruct (outcome_of (_stop_application env)).
  - rewrite app_comm_cons, !app_assoc in Hk.
    apply app_inj_tail in Hk as [-> _].
    rewrite !elem_of_app, list_elem_of_singleton. auto.
  - rewrite app_nil_r in Hk. rewrite Hk.
    rewrite !elem_of_app, list_elem_of_singleton. auto.
  - rewrite app_nil_r in Hk. rewrite Hk.
    rewrite !elem_of_app, list_elem_of_singleton. auto.
Qed.

Lemma sound_run_once env w : coherent env w → sound env (run_once env w).
Proof.
  intros Hw. unfold run_once.
  destruct (ready w) as [|cb rest] eqn:Hready; [done|].
  assert (coherent env (set_ready (λ _, rest) w)) as Hw'
    by (by eapply coherent_ext; [..|exact Hw]).
  destruct cb as [o | o | |].
  - simpl. by eapply coherent_ext; [..|exact Hw].
  - destruct (lookup_coro o _) as [c|] eqn:Hc; [|done].
    destruct (awaiting o _); [by eapply coherent_kill|].
    pose proof (coherent_step env _ o c Hw' Hc) as Hstep.
    pose proof (resume_execed c) as Hexec.
    pose proof (resume_events c) as Hev.
    destruct (resume c) as [[es c'] st]. simpl in *.
    destruct st as [| | path args]; simpl.
    + by eapply coherent_ext; [..|exact Hstep].
    + done.
    + specialize (Hexec path args eq_refl). subst c'.
      assert (calls_by o (trace (store_coro o (Exec path args)
                (emit_all o es (set_ready (λ _, rest) w))) ++ [(o, Execv path args)])
                `prefix_of`
                match o with
                | Handler s => events_of (signal_handler env s)
                | Reloader n => events_of (reload env)
                | _ => calls_by o (trace w) ++ es ++ [Execv path args]
                end) as Hall.
      { rewrite calls_by_app. change [(o, Execv path args)] with ((o,.) <$> [Execv path args]).
        rewrite calls_by_same.
        destruct Hstep as [H1 H2 H3 H4].
        destruct o as [| s | n |]; simpl in Hc; try done.
        - apply (H1 s (Exec path args)). simpl. apply lookup_insert_eq.
        - apply (H3 n (Exec path args)). simpl.
          apply list_lookup_insert_eq.
          destruct (emit_all_fields (Reloader n) es (set_ready (λ _, rest) w))
            as (_ & -> & _).
          by eapply lookup_lt_Some. }
      destruct o as [| s | n |]; simpl in Hc; try done.
      * exfalso. apply (signal_handler_no_execv env s path args).
        destruct Hall as [k ->]. rewrite calls_by_app, !elem_of_app. left. right.
        unfold calls_by. simpl. rewrite decide_True by done. left.
      * rewrite calls_by_app in Hall.
        change [(Reloader n, Execv path args)]
          with ((Reloader n,.) <$> [Execv path args]) in Hall.
        rewrite calls_by_same in Hall.
        apply reload_execv_last in Hall.
        assert (Execv path args ∈ events_of (reload env)) as Hin.
        { rewrite <- Hall. apply elem_of_app. right. left. }
        pose proof Hin as Hin'.
        apply reload_execv in Hin as [-> ->].
        assert (calls_by (Reloader n)
                  (trace (store_coro (Reloader n)
                            (Exec (sys_executable env) (sys_executable env :: sys_argv env))
                            (emit_all (Reloader n) es (set_ready (λ _, rest) w))) ++
                   [(Reloader n,
                     Execv (sys_executable env) (sys_executable env :: sys_argv env))]) =
                events_of (reload env)) as Hcalls.
        { rewrite calls_by_app.
          change [(Reloader n, ?e)] with ((Reloader n,.) <$> [e]).
          by rewrite calls_by_same. }
        split; [|by exists n].
        destruct (coherent_bounded env _ Hstep) as [Hb1 Hb2].
        split.
        -- intros s. rewrite calls_by_app.
           change [(Reloader n, ?e)] with ((Reloader n,.) <$> [e]).
           rewrite calls_by_other, app_nil_r by done. apply Hb1.
        -- intros n'. destruct (decide (n' = n)) as [->|Hne].
           ++ by rewrite Hcalls.
           ++ rewrite calls_by_app.
              change [(Reloader n, ?e)] with ((Reloader n,.) <$> [e]).
              rewrite calls_by_other, app_nil_r by congruence. apply Hb2.
  - simpl. by apply coherent_bounded in Hw.
  - simpl. by apply coherent_reload_hook.
Qed.

Lemma sound_act env p a : sound env p → sound env (act env p a).
Proof.
  destruct p as [w | tr | tr exc | tr path args]; simpl; try done.
  intros Hw. destruct a as [s | | path mtime | i |].
  - unfold deliver. destruct (handlers w !! s); [|done].
    destruct (windows env); simpl.
    + by apply coherent_bounded.
    + by eapply coherent_ext; [..|exact Hw].
  - by eapply coherent_ext; [..|exact Hw].
  - by eapply coherent_ext; [..|exact Hw].
  - unfold wake. destruct (waiting w !! i); [|done].
    by eapply coherent_ext; [..|exact Hw].
  - by apply sound_run_once.
Qed.

Lemma execute_snoc env acts a p :
  execute env (acts ++ [a]) p = act env (execute env acts p) a.
Proof. unfold execute. by rewrite foldl_app. Qed.


(** *** Startup *)

Create HintDb startup.

Lemma calls_by_main_only o tr :
  (∀ oe, oe ∈ tr → oe.1 = Main) → o ≠ Main → calls_by o tr = [].
Proof.
  intros Hmain Ho. induction tr as [|oe tr IH]; [done|].
  unfold calls_by in *. simpl. rewrite decide_False.
  - apply IH. intros oe' Hin. apply Hmain. by right.
  - rewrite (Hmain oe) by left. congruence.
Qed.

Lemma main_only_bounded env tr :
  (∀ oe, oe ∈ tr → oe.1 = Main) → bounded env tr.
Proof.
  intros Hmain. split; intros; rewrite calls_by_main_only by done; apply prefix_nil.
Qed.

Lemma pristine_coherent env w : pristine env w → coherent env w.
Proof.
  intros [Ht Hr Hh _ _ _]. split.
  - intros s c Hs. rewrite (Hh s c Hs). by rewrite calls_by_main_only.
  - intros. by rewrite calls_by_main_only.
  - intros n c Hn. by rewrite Hr in Hn.
  - intros. by rewrite calls_by_main_only.
Qed.

Lemma pristine_fresh env files :
  pristine env (set_mtimes (λ _, files) fresh_loop).
Proof.
  split; simpl; try done; intros ?; by rewrite elem_of_nil.
Qed.

Lemma pristine_emit env w e : pristine env w → pristine env (emit Main e w).
Proof.
  intros [Ht Hr Hh Hq Hs Hw].
  destruct (emit_fields Main e w) as (Hh' & Hr' & Hs' & _ & Ht' & k & Hq').
  split; rewrite ?Hh', ?Hr', ?Hs', ?Ht', ?Hq', ?emit_waiting; auto.
  - intros oe [Hin | Hin]%elem_of_app; [auto|].
    by apply list_elem_of_singleton in Hin as ->.
  - intros cb [Hin | Hin]%elem_of_app; [auto|].
    by apply elem_of_replicate in Hin as [-> _].
Qed.

Lemma pristine_emit_all env w es : pristine env w → pristine env (emit_all Main es w).
Proof.
  unfold emit_all. revert w. induction es as [|e es IH]; intros w Hw; simpl; [done|].
  by apply IH, pristine_emit.
Qed.

Lemma pristine_run_until_complete env w c :
  pristine env w → pristine env (run_until_complete c w).
Proof.
  intros Hw. unfold run_until_complete.
  destruct (pristine_emit_all env w (events_of c) Hw) as [Ht Hr Hh Hq Hs Hwt].
  split; simpl; auto.
  intros cb Hin. apply list_elem_of_lookup in Hin as [i Hi].
  rewrite lookup_drop in Hi. apply list_elem_of_lookup_2 in Hi.
  apply elem_of_app in Hi as [Hi | Hi]; [auto|].
  by apply list_elem_of_singleton in Hi.
Qed.

Lemma pristine_register env w s :
  pristine env w →
  pristine env (set_handlers (λ h, <[s := signal_handler env s]> h) w).
Proof.
  intros [Ht Hr Hh Hq Hs Hw]. split; simpl; auto.
  intros s' c. destruct (decide (s = s')) as [<-|Hne].
  - rewrite lookup_insert_eq. congruence.
  - rewrite lookup_insert_ne by done. auto.
Qed.

Lemma pristine_signal_handling env w :
  pristine env w → pristine env (_signal_handling env w).
Proof.
  unfold _signal_handling. generalize (signals env). intros sigs. revert w.
  induction sigs as [|s sigs IH]; intros w Hw; simpl; [done|].
  apply IH. destruct (windows env); by apply pristine_emit, pristine_register.
Qed.

Lemma pristine_call_later env w :
  pristine env w → pristine env (call_later ReloadHook w).
Proof.
  intros [Ht Hr Hh Hq Hs Hw]. split; simpl; auto.
  intros cb [Hin | Hin]%elem_of_app; [auto|].
  by apply list_elem_of_singleton in Hin.
Qed.

#[local] Hint Resolve pristine_fresh pristine_emit pristine_emit_all
  pristine_run_until_complete pristine_signal_handling pristine_call_later : startup.

(** [run] either ends before the loop is set up or enters [run_forever]
    with a loop in which no coroutine has started. *)
Lemma start_loop_pristine env ctx w :
  pristine env w →
  match start_loop env ctx w with
  | Running w' => pristine env w'
  | _ => False
  end.
Proof. intros Hw. unfold start_loop. destruct (debug env); auto 10 with startup. Qed.

Lemma run_pristine env files :
  match run env files with
  | Running w => pristine env w
  | Died tr exc => (∀ oe, oe ∈ tr → oe.1 = Main) ∧ exc = "SystemExit"
  | _ => False
  end.
Proof.
  unfold run.
  assert (pristine env
            (if windows env
             then emit Main SetEventLoopProactor
                    (emit Main (LoggerSetLevel "asyncio" WARNING)
                       (set_mtimes (λ _, files) fresh_loop))
             else emit Main (LoggerSetLevel "asyncio" WARNING)
                    (set_mtimes (λ _, files) fresh_loop))) as H1
    by (destruct (windows env); auto with startup).
  assert (∀ w e, pristine env w → ∀ oe, oe ∈ trace (emit Main e w) → oe.1 = Main) as Hdied.
  { intros w e Hw. apply pristine_trace with env. auto with startup. }
  destruct (ssl env).
  - destruct (windows env); [by split; [apply Hdied|]|].
    unfold _create_ssl_context. destruct (load_cert_chain env).
    + apply start_loop_pristine. auto with startup.
    + split; [|done]. apply Hdied. auto with startup.
    + split; [|done]. apply Hdied. auto with startup.
  - by apply start_loop_pristine.
Qed.

Lemma sound_run env files : sound env (run env files).
Proof.
  pose proof (run_pristine env files) as H.
  destruct (run env files) as [w | tr | tr exc | tr path args]; simpl; try done.
  - by apply pristine_coherent.
  - destruct H as [H _]. by apply main_only_bounded.
Qed.

(** *** The reload watch *)

Lemma spawn_reload_fields env w :
  handlers (spawn_reload env w) = handlers w ∧
  scheduled (spawn_reload env w) = scheduled w ∧
  waiting (spawn_reload env w) = waiting w ∧
  mtimes (spawn_reload env w) = mtimes w ∧
  trace (spawn_reload env w) = trace w ∧
  reloads (spawn_reload env w) = reloads w ++ [reload env] ∧
  ready (spawn_reload env w) = ready w ++ [Step (Reloader (length (reloads w)))].
Proof. done. Qed.

(** One scan adds its reloads to those that exist, its tasks to those that
    are ready, and touches nothing else. *)
Lemma scan_fields env mods w :
  handlers (scan env mods w).1 = handlers w ∧
  scheduled (scan env mods w).1 = scheduled w ∧
  waiting (scan env mods w).1 = waiting w ∧
  mtimes (scan env mods w).1 = mtimes w ∧
  reloads (scan env mods w).1 =
    reloads w ++ replicate (spawned env (mtimes w) mods) (reload env) ∧
  ready (scan env mods w).1 =
    ready w ++ ((λ n, Step (Reloader n)) <$>
                  seq (length (reloads w)) (spawned env (mtimes w) mods)) ∧
  ∃ es, trace (scan env mods w).1 = trace w ++ ((Watch,.) <$> es).
Proof.
  revert w. induction mods as [|m mods IH]; intros w; simpl.
  - rewrite !app_nil_r. repeat split; try done. exists []. by rewrite app_nil_r.
  - destruct (watched_path m) as [path|]; [|by apply IH].
    destruct (mtimes w !! path) as [modified|] eqn:Hstat.
    + destruct (start_time env <? modified)%Z; [|by apply IH].
      destruct (emit_fields Watch (Log DEBUG ("File " +:+ path +:+ " has been modified")) w)
        as (Hh1 & Hr1 & Hs1 & Hm1 & Ht1 & _).
      assert (ready (emit Watch (Log DEBUG ("File " +:+ path +:+ " has been modified")) w)
              = ready w) as Hq1 by done.
      destruct (spawn_reload_fields env
                  (emit Watch (Log DEBUG ("File " +:+ path +:+ " has been modified")) w))
        as (Hh2 & Hs2 & Hw2 & Hm2 & Ht2 & Hr2 & Hq2).
      destruct (IH (spawn_reload env
                  (emit Watch (Log DEBUG ("File " +:+ path +:+ " has been modified")) w)))
        as (-> & -> & -> & -> & -> & -> & es & ->).
      rewrite Hh2, Hs2, Hw2, Hm2, Ht2, Hr2, Hq2.
      rewrite Hh1, Hs1, Hm1, Ht1, Hr1, Hq1, emit_waiting.
      rewrite length_app. simpl.
      replace (length (reloads w) + 1) with (S (length (reloads w))) by lia.
      rewrite <- !app_assoc. simpl.
      repeat split; try done.
      exists (Log DEBUG ("File " +:+ path +:+ " has been modified") :: es). done.
    + simpl. rewrite !app_nil_r. repeat split; try done.
      exists []. by rewrite app_nil_r.
Qed.

Lemma scan_completes env mods w :
  (∀ m path, m ∈ mods → watched_path m = Some path → is_Some (mtimes w !! path)) →
  (scan env mods w).2 = true.
Proof.
  revert w. induction mods as [|m mods IH]; intros w Hstat; simpl; [done|].
  assert (∀ w', mtimes w' = mtimes w → (scan env mods w').2 = true) as IH'.
  { intros w' Hw'. apply IH. intros m' path Hin Hp. rewrite Hw'.
    apply (Hstat m' path); [by right | done]. }
  destruct (watched_path m) as [path|] eqn:Hpath; [|by apply IH'].
  destruct (Hstat m path) as [modified Hmod]; [left | done |]. rewrite Hmod.
  destruct (start_time env <? modified)%Z; by apply IH'.
Qed.

Lemma spawned_modified env files mods :
  (∀ m path, m ∈ mods → watched_path m = Some path → is_Some (files !! path)) →
  spawned env files mods =
  length (filter (λ m, modified_since_start env files m) mods).
Proof.
  induction mods as [|m mods IH]; intros Hstat; simpl; [done|].
  assert (spawned env files mods =
          length (filter (λ m, modified_since_start env files m) mods)) as IH'.
  { apply IH. intros m' path Hin. apply Hstat. by right. }
  rewrite filter_cons.
  assert (match watched_path m with
          | None => spawned env files mods
          | Some path =>
              match files !! path with
              | None => 0
              | Some modified =>
                  if (start_time env <? modified)%Z
                  then S (spawned env files mods) else spawned env files mods
              end
          end =
          if modified_since_start env files m
          then S (spawned env files mods) else spawned env files mods) as ->.
  { unfold modified_since_start.
    destruct (watched_path m) as [path|] eqn:Hpath; [|done].
    destruct (Hstat m path) as [modified Hmod]; [left | done |]. by rewrite Hmod. }
  destruct (modified_since_start env files m).
  - rewrite decide_True by done. simpl. by f_equal.
  - rewrite decide_False by (by intros []). done.
Qed.

(** *** A signal that is never delivered *)

Lemma store_coro_fields o c w :
  ready (store_coro o c w) = ready w ∧
  scheduled (store_coro o c w) = scheduled w ∧
  waiting (store_coro o c w) = waiting w ∧
  trace (store_coro o c w) = trace w.
Proof. by destruct o. Qed.







(** *** Signals *)





(** *** Reload *)

(** C4 (amended).  The watch keeps no record of what is in flight: every
    scan starts one new reload task for every loaded source file whose
    modification time is strictly greater than the start time of the
    process, whatever coroutines and tasks exist already, and adds them to
    those; it then schedules the next scan. *)
Theorem reload_hook_starts_one_reload_per_modified_file env w :
  (∀ m path, m ∈ sys_modules env → watched_path m = Some path →
             is_Some (mtimes w !! path)) →
  reloads (_reload_hook env w) =
    reloads w ++
    replicate (length (filter (λ m, modified_since_start env (mtimes w) m) (sys_modules env)))
              (reload env) ∧
  ready (_reload_hook env w) =
    ready w ++
    ((λ n, Step (Reloader n)) <$>
       seq (length (reloads w))
           (length (filter (λ m, modified_since_start env (mtimes w) m) (sys_modules env)))) ∧
  scheduled (_reload_hook env w) = scheduled w ++ [ReloadHook].
Proof.
  intros Hstat. unfold _reload_hook.
  pose proof (scan_completes env (sys_modules env) w Hstat) as Hok.
  destruct (scan_fields env (sys_modules env) w) as (_ & Hs & _ & _ & Hr & Hq & _).
  rewrite (spawned_modified env (mtimes w) (sys_modules env) Hstat) in Hr, Hq.
  destruct (scan env (sys_modules env) w) as [w' ok]. simpl in *. subst ok.
  simpl. by rewrite Hr, Hq, Hs.
Qed.

Lemma reload_hook_starts_one_reload_per_modified_file_witness :
  reloads (_reload_hook debug_env watching) = [reload debug_env; reload debug_env] ∧
  ready (_reload_hook debug_env watching) = [Step (Reloader 0); Step (Reloader 1)] ∧
  scheduled (_reload_hook debug_env watching) = [ReloadHook].
Proof.
  apply (reload_hook_starts_one_reload_per_modified_file debug_env watching).
  intros m path Hin Hpath.
  repeat (apply elem_of_cons in Hin as [-> | Hin];
          [vm_compute in Hpath; simplify_eq; vm_compute; eauto|]).
  by apply elem_of_nil in Hin.
Defined.

(** A scan that finds no file written after the start starts nothing. *)
Example scan_of_untouched_files_starts_nothing :
  reloads (_reload_hook debug_env (set_mtimes (λ _, untouched_files) watching)) = [] ∧
  ready (_reload_hook debug_env (set_mtimes (λ _, untouched_files) watching)) = [].
Proof. split; vm_compute; reflexivity. Qed.

(** C4 as stated fails: one scan that finds two modified files starts two
    reloads, and both are in flight, each waiting in the unload of
    Dynamips, before either has replaced the process. *)
Lemma two_reloads_in_flight :
  is_running two_stale_files = true ∧
  calls_by (Reloader 0) (history two_stale_files) =
    [Log INFO "Reloading"; Log DEBUG "Unloading module Dynamips"; UnloadCall "Dynamips"] ∧
  calls_by (Reloader 1) (history two_stale_files) =
    [Log INFO "Reloading"; Log DEBUG "Unloading module Dynamips"; UnloadCall "Dynamips"].
Proof. repeat split; vm_compute; reflexivity. Qed.






(** *** Startup failures *)

Lemma emit_all_quiet o es w :
  LoopStop ∉ es → ready (emit_all o es w) = ready w.
Proof.
  unfold emit_all. revert w. induction es as [|e es IH]; intros w Hes; [done|].
  apply not_elem_of_cons in Hes as [He Hes]. simpl. rewrite IH by done.
  unfold emit. by destruct e.
Qed.

Lemma flat_map_no_stop {A} (f : A → list event) (l : list A) :
  (∀ x, LoopStop ∉ f x) → LoopStop ∉ flat_map f l.
Proof.
  intros Hf. induction l as [|x l IH]; simpl; [apply not_elem_of_nil|].
  rewrite elem_of_app. intros [Hin | Hin]; [by eapply Hf | done].
Qed.

(** The loop when [run] reaches [run_until_complete]: nothing is ready or
    scheduled yet. *)
Lemma before_bind env w :
  ready w = [] → scheduled w = [] →
  ready (emit Main (Log INFO ("Starting server on " +:+ host env +:+ ":" +:+ pretty (port env)))
           (emit_all Main
              (flat_map (λ module, [Log DEBUG ("Loading module " +:+ module);
                                    SetPortManager module]) (MODULES env))
              (emit_all Main
                 (flat_map (λ '(method, route),
                              [Log DEBUG ("Adding route: " +:+ method +:+ " " +:+ route);
                               AddRoute method route]) (routes env)) w))) = [] ∧
  scheduled (emit Main (Log INFO ("Starting server on " +:+ host env +:+ ":" +:+ pretty (port env)))
           (emit_all Main
              (flat_map (λ module, [Log DEBUG ("Loading module " +:+ module);
                                    SetPortManager module]) (MODULES env))
              (emit_all Main
                 (flat_map (λ '(method, route),
                              [Log DEBUG ("Adding route: " +:+ method +:+ " " +:+ route);
                               AddRoute method route]) (routes env)) w))) = [].
Proof.
  intros Hq Hs. split.
  - change (ready (emit Main (Log ?l ?m) ?w')) with (ready w').
    rewrite !emit_all_quiet; [done|..]; apply flat_map_no_stop.
    + intros [method route]. rewrite !not_elem_of_cons. repeat split; try done.
      apply not_elem_of_nil.
    + intros module. rewrite !not_elem_of_cons. repeat split; try done.
      apply not_elem_of_nil.
  - change (scheduled (emit Main (Log ?l ?m) ?w')) with (scheduled w').
    destruct (emit_all_fields Main
      (flat_map (λ module, [Log DEBUG ("Loading module " +:+ module);
                            SetPortManager module]) (MODULES env))
      (emit_all Main
         (flat_map (λ '(method, route),
                      [Log DEBUG ("Adding route: " +:+ method +:+ " " +:+ route);
                       AddRoute method route]) (routes env)) w)) as (_ & _ & -> & _).
    by destruct (emit_all_fields Main
      (flat_map (λ '(method, route),
                   [Log DEBUG ("Adding route: " +:+ method +:+ " " +:+ route);
                    AddRoute method route]) (routes env)) w) as (_ & _ & -> & _).
Qed.

Lemma start_loop_bind_failure env ctx w e :
  bind_failure env = Some e → ready w = [] → scheduled w = [] →
  ∃ w' pre,
    start_loop env ctx w = Running w' ∧
    trace w' =
      pre ++ ((Main,.) <$>
        [CreateServer (host env) (port env) ctx;
         Log CRITICAL ("Could not start the server: " +:+ e); LoopStop] ++
        ((if windows env then SignalSignal else AddSignalHandler) <$> signals env) ++
        (if debug env
         then [Log INFO "Code live reload is enabled, watching for file changes"; CallLater 1]
         else [])) ∧
    ready w' = [RaiseStop] ∧
    scheduled w' = (if debug env then [ReloadHook] else []).
Proof.
  intros Hbind Hq Hs. unfold start_loop.
  destruct (before_bind env w Hq Hs) as [Hq3 Hs3].
  set (w3 := emit Main (Log INFO _) _) in *. clearbody w3.
  assert (events_of (_run_application env ctx) =
          [CreateServer (host env) (port env) ctx;
           Log CRITICAL ("Could not start the server: " +:+ e); LoopStop]) as Hev.
  { unfold _run_application. simpl. by rewrite events_suspend, Hbind. }
  unfold run_until_complete. rewrite Hev.
  unfold _signal_handling, signals.
  destruct (windows env), (debug env);
    eexists _, (trace w3); (split; [reflexivity|]);
    unfold emit_all, emit, call_soon, call_later; simpl;
    rewrite Hq3, Hs3; simpl; rewrite <- ?app_assoc; done.
Qed.

(** C6 (amended).  When binding fails with an OS error, the failure is
    logged as critical and [loop.stop()] is called; [run] does not look at
    the outcome of [_run_application], so it goes on to install the signal
    handlers and, in debug mode, to schedule the reload watch, and enters
    [run_forever], which returns at its first callback, the pending stop. *)
Theorem bind_failure_stops_loop_after_startup env files e :
  bind_failure env = Some e →
  ssl env = false ∨ (windows env = false ∧ load_cert_chain env = CertLoaded) →
  ∃ w pre,
    run env files = Running w ∧
    trace w =
      pre ++ ((Main,.) <$>
        [CreateServer (host env) (port env) (ssl env);
         Log CRITICAL ("Could not start the server: " +:+ e); LoopStop] ++
        ((if windows env then SignalSignal else AddSignalHandler) <$> signals env) ++
        (if debug env
         then [Log INFO "Code live reload is enabled, watching for file changes"; CallLater 1]
         else [])) ∧
    ready w = [RaiseStop] ∧
    scheduled w = (if debug env then [ReloadHook] else []) ∧
    run_once env w = Ended (trace w).
Proof.
  intros Hbind Hssl.
  assert (∀ ctx w0, ready w0 = [] → scheduled w0 = [] →
            ∃ w pre,
              start_loop env ctx w0 = Running w ∧
              trace w =
                pre ++ ((Main,.) <$>
                  [CreateServer (host env) (port env) ctx;
                   Log CRITICAL ("Could not start the server: " +:+ e); LoopStop] ++
                  ((if windows env then SignalSignal else AddSignalHandler) <$> signals env) ++
                  (if debug env
                   then [Log INFO "Code live reload is enabled, watching for file changes";
                         CallLater 1]
                   else [])) ∧
              ready w = [RaiseStop] ∧
              scheduled w = (if debug env then [ReloadHook] else []) ∧
              run_once env w = Ended (trace w)) as Hstart.
  { intros ctx w0 Hq Hs.
    destruct (start_loop_bind_failure env ctx w0 e Hbind Hq Hs)
      as (w & pre & Hrun & Ht & Hq' & Hs').
    exists w, pre. repeat split; try done.
    unfold run_once. by rewrite Hq'. }
  unfold run. destruct Hssl as [Hssl | [Hwin Hcert]].
  - rewrite Hssl. apply Hstart; by destruct (windows env).
  - unfold _create_ssl_context. rewrite Hcert. rewrite Hwin in Hstart |- *.
    destruct (ssl env); by apply Hstart.
Qed.

Lemma bind_failure_stops_loop_after_startup_witness :
  ∃ w pre,
    run port_in_use_debug ∅ = Running w ∧
    trace w =
      pre ++ ((Main,.) <$>
        [CreateServer "0.0.0.0" 8000 false;
         Log CRITICAL "Could not start the server: [Errno 98] Address already in use";
         LoopStop;
         AddSignalHandler "SIGTERM"; AddSignalHandler "SIGINT";
         AddSignalHandler "SIGHUP"; AddSignalHandler "SIGQUIT";
         Log INFO "Code live reload is enabled, watching for file changes"; CallLater 1]) ∧
    ready w = [RaiseStop] ∧
    scheduled w = [ReloadHook] ∧
    run_once port_in_use_debug w = Ended (trace w).
Proof.
  apply (bind_failure_stops_loop_after_startup port_in_use_debug ∅
           "[Errno 98] Address already in use").
  - reflexivity.
  - left. reflexivity.
Defined.

(** C6 as stated fails: with the port in use, [run] still installs the
    four signal handlers and schedules the reload watch. *)
Lemma startup_goes_on_after_bind_failure :
  history (run port_in_use_debug ∅) =
    (Main,.) <$>
      [LoggerSetLevel "asyncio" WARNING;
       Log DEBUG "Adding route: GET /version"; AddRoute "GET" "/version";
       Log DEBUG "Loading module Dynamips"; SetPortManager "Dynamips";
       Log DEBUG "Loading module VPCS"; SetPortManager "VPCS";
       Log INFO "Starting server on 0.0.0.0:8000";
       CreateServer "0.0.0.0" 8000 false;
       Log CRITICAL "Could not start the server: [Errno 98] Address already in use";
       LoopStop;
       AddSignalHandler "SIGTERM"; AddSignalHandler "SIGINT";
       AddSignalHandler "SIGHUP"; AddSignalHandler "SIGQUIT";
       Log INFO "Code live reload is enabled, watching for file changes";
       CallLater 1] ∧
  is_running (run port_in_use_debug ∅) = true.
Proof. split; vm_compute; reflexivity. Qed.

(** C10.  With the SSL flag set on Windows, [run] logs the critical
    message and raises [SystemExit] after its first two calls: the
    listener is not bound, no module is given the port manager and no
    signal handler is installed. *)
Theorem ssl_on_windows_exits_before_startup env files :
  ssl env = true → windows env = true →
  run env files =
    Died [(Main, LoggerSetLevel "asyncio" WARNING);
          (Main, SetEventLoopProactor);
          (Main, Log CRITICAL "SSL mode is not supported on Windows")]
         "SystemExit" ∧
  ∀ o e, (o, e) ∈ history (run env files) →
         (∀ h p c, e ≠ CreateServer h p c) ∧ (∀ m, e ≠ SetPortManager m) ∧
         (∀ s, e ≠ AddSignalHandler s) ∧ (∀ s, e ≠ SignalSignal s).
Proof.
  intros Hssl Hwin.
  assert (run env files =
          Died [(Main, LoggerSetLevel "asyncio" WARNING);
                (Main, SetEventLoopProactor);
                (Main, Log CRITICAL "SSL mode is not supported on Windows")]
               "SystemExit") as Hrun.
  { unfold run. by rewrite Hssl, Hwin. }
  split; [done|]. rewrite Hrun. simpl. intros o e Hin.
  repeat (apply elem_of_cons in Hin as [Hin | Hin]; [by simplify_eq|]).
  by apply elem_of_nil in Hin.
Qed.

Lemma ssl_on_windows_exits_before_startup_witness :
  run windows_ssl ∅ =
    Died [(Main, LoggerSetLevel "asyncio" WARNING);
          (Main, SetEventLoopProactor);
          (Main, Log CRITICAL "SSL mode is not supported on Windows")]
         "SystemExit".
Proof.
  apply (ssl_on_windows_exits_before_startup windows_ssl ∅); reflexivity.
Defined.

End ServerProofs.

(** ** Properties of ethernet_hub_nodes.py *)

Module HubProofs.
Import EthernetHubNodes Dynamips HubSamples.

(** C7 (amended).  [delete_nio] first removes the endpoint from the port
    mapping of the node and only then releases it, and it releases nothing
    when the node is not found or the removal raises.  These are its only
    calls.  In the backend of the specification the removal stops a running
    capture, so the capture of an endpoint is stopped before the endpoint
    is released: after the removal the port is empty, the endpoint still
    exists and has no capture; after the release the endpoint is gone.
    The removal and the release are two awaited calls with nothing that
    holds other handlers back: between them the handler can be suspended,
    in the state the removal leaves, where the endpoint is removed and not
    yet released. *)
Theorem delete_nio_removes_then_releases :
  (∀ (B : Backend) (m : manager) (project_id node_id : string)
     (adapter_number port_number : Z),
     (manager_get_node m node_id project_id = None →
      run_handler (delete_nio project_id node_id adapter_number port_number) m =
        (inl NotFound, m, [Invoked (GetNode node_id project_id)])) ∧
     (∀ n e m1,
        manager_get_node m node_id project_id = Some n →
        node_remove_nio n port_number m = (inl e, m1) →
        run_handler (delete_nio project_id node_id adapter_number port_number) m =
          (inl e, m1, [Invoked (GetNode node_id project_id);
                       Invoked (RemoveNio n port_number)])) ∧
     (∀ n x m1 r m2,
        manager_get_node m node_id project_id = Some n →
        node_remove_nio n port_number m = (inr x, m1) →
        nio_delete x m1 = (r, m2) →
        run_handler (delete_nio project_id node_id adapter_number port_number) m =
          (r, m2, [Invoked (GetNode node_id project_id);
                   Invoked (RemoveNio n port_number);
                   Invoked (NioDelete x)]) ∧
        ∃ rest,
          turn (delete_nio project_id node_id adapter_number port_number) m =
            (Suspended rest, m1) ∧
          run_handler rest m1 = (r, m2, [Invoked (NioDelete x)]))) ∧
  (∀ (st : state) (project_id node_id : string) (adapter_number port_number : Z)
     (x : nat),
     is_Some (get_node st node_id project_id) →
     get_nio st node_id port_number = Some x →
     ∃ rest st1 st2,
       turn (delete_nio project_id node_id adapter_number port_number) st =
         (Suspended rest, st1) ∧
       run_handler rest st1 = (inr tt, st2, [Invoked (NioDelete x)]) ∧
       run_handler (delete_nio project_id node_id adapter_number port_number) st =
         (inr tt, st2, [Invoked (GetNode node_id project_id);
                        Invoked (RemoveNio node_id port_number);
                        Invoked (NioDelete x)]) ∧
       slot_empty st1 node_id port_number = true ∧
       live st1 x = live st x ∧
       (∀ e, endpoints st1 !! x = Some e → capture e = None) ∧
       slot_empty st2 node_id port_number = true ∧
       live st2 x = false).
Proof.
  assert (∀ (B : Backend) (m : manager) (project_id node_id : string)
            (adapter_number port_number : Z) n x m1 r m2,
            manager_get_node m node_id project_id = Some n →
            node_remove_nio n port_number m = (inr x, m1) →
            nio_delete x m1 = (r, m2) →
            run_handler (delete_nio project_id node_id adapter_number port_number) m =
              (r, m2, [Invoked (GetNode node_id project_id);
                       Invoked (RemoveNio n port_number);
                       Invoked (NioDelete x)]) ∧
            ∃ rest,
              turn (delete_nio project_id node_id adapter_number port_number) m =
                (Suspended rest, m1) ∧
              run_handler rest m1 = (r, m2, [Invoked (NioDelete x)])) as Hdetach.
  { intros B m project_id node_id adapter_number port_number n x m1 r m2
      Hnode Hremove Hdelete. split.
    - simpl. rewrite Hnode, Hremove, Hdelete. by destruct r as [e | []].
    - eexists. simpl. rewrite Hnode, Hremove. split; [reflexivity|].
      simpl. rewrite Hdelete. by destruct r as [e | []]. }
  split.
  - intros B m project_id node_id adapter_number port_number. split; [|split].
    + intros Hnode. simpl. by rewrite Hnode.
    + intros n e m1 Hnode Hremove. simpl. by rewrite Hnode, Hremove.
    + intros n x m1 r m2. apply Hdetach.
  - intros st project_id node_id adapter_number port_number x Hnode Hnio.
    unfold get_node, get_nio in Hnode, Hnio.
    destruct (nodes st !! node_id) as [h|] eqn:Hh; [|by destruct Hnode].
    destruct (String.eqb (project h) project_id) eqn:Hp; [|by destruct Hnode].
    set (st1 := set_hub node_id (set_mappings (λ mp, delete port_number mp) h)
                  (set_endpoints (λ es, alter (set_capture None) x es) st)).
    set (st2 := set_endpoints (λ es, delete x es) st1).
    destruct (Hdetach backend st project_id node_id adapter_number port_number
                node_id x st1 (inr tt) st2) as (Hrun & rest & Hturn & Hrest).
    { change (get_node st node_id project_id = Some node_id).
      unfold get_node. by rewrite Hh, Hp. }
    { change (remove_nio node_id port_number st = (inr x, st1)).
      unfold remove_nio. by rewrite Hh, Hnio. }
    { reflexivity. }
    exists rest, st1, st2. split; [exact Hturn|]. split; [exact Hrest|].
    split; [exact Hrun|].
    unfold slot_empty, live, get_nio, st2, st1. simpl.
    rewrite !lookup_insert_eq. simpl. rewrite !lookup_delete_eq, lookup_alter_eq.
    split; [done|]. split; [apply bool_decide_ext; by rewrite fmap_is_Some|].
    split; [|done].
    intros e He. apply fmap_Some in He as (e0 & _ & ->). reflexivity.
Qed.

Lemma delete_nio_removes_then_releases_witness :
  (run_handler (delete_nio "p1" "hub1" 0 0) capturing =
     (inr tt, detach_finished.2,
      [Invoked (GetNode "hub1" "p1"); Invoked (RemoveNio "hub1" 0); Invoked (NioDelete 0)]) ∧
   ∃ rest,
     turn (delete_nio "p1" "hub1" 0 0) capturing = (Suspended rest, detach_started.2) ∧
     run_handler rest detach_started.2 =
       (inr tt, detach_finished.2, [Invoked (NioDelete 0)])) ∧
  ∃ rest st1 st2,
    turn (delete_nio "p1" "hub1" 0 0) capturing = (Suspended rest, st1) ∧
    run_handler rest st1 = (inr tt, st2, [Invoked (NioDelete 0)]) ∧
    run_handler (delete_nio "p1" "hub1" 0 0) capturing =
      (inr tt, st2, [Invoked (GetNode "hub1" "p1"); Invoked (RemoveNio "hub1" 0);
                     Invoked (NioDelete 0)]) ∧
    slot_empty st1 "hub1" 0 = true ∧
    live st1 0 = live capturing 0 ∧
    (∀ e, endpoints st1 !! 0 = Some e → capture e = None) ∧
    slot_empty st2 "hub1" 0 = true ∧
    live st2 0 = false.
Proof.
  destruct delete_nio_removes_then_releases as [Hcalls Hcapture]. split.
  - destruct (Hcalls backend capturing "p1" "hub1" 0%Z 0%Z) as (_ & _ & Hdetach).
    apply (Hdetach "hub1" 0 detach_started.2 (inr tt) detach_finished.2);
      vm_compute; reflexivity.
  - apply (Hcapture capturing "p1" "hub1" 0%Z 0%Z 0); [|reflexivity].
    vm_compute. eauto.
Defined.

(** C7 as stated fails: a request for the capture stream that runs while
    the detach is suspended between its two awaited calls finds port 0
    empty although endpoint 0 is not released yet. *)
Lemma detach_seen_half_done :
  (run_handler (stream_pcap_file "p1" "hub1" 0 0) capturing).1.1 =
    inr (Some "/projects/p1/tmp/captures/cap1.pcap") ∧
  is_suspended detach_started.1 = true ∧
  slot_empty detach_started.2 "hub1" 0 = true ∧
  live detach_started.2 0 = true ∧
  seen_meanwhile.1.1 = inl NotFound ∧
  live seen_meanwhile.1.2 0 = true ∧
  live detach_finished.2 0 = false.
Proof. repeat split; vm_compute; reflexivity. Qed.

(** C8.  The five handlers that take an adapter number are the same
    program for any two adapter numbers, so they reply and change the
    backend in the same way, turn by turn; a request that names another
    adapter succeeds exactly as one that names adapter 0. *)
Theorem adapter_number_is_ignored `{Backend} `{OsPath}
    (project_id node_id : string) (a1 a2 port_number : Z)
    (nio_data : nio_config) (capture_file_name data_link_type : string) :
  create_nio project_id node_id a1 port_number nio_data =
    create_nio project_id node_id a2 port_number nio_data ∧
  delete_nio project_id node_id a1 port_number =
    delete_nio project_id node_id a2 port_number ∧
  start_capture project_id node_id a1 port_number capture_file_name data_link_type =
    start_capture project_id node_id a2 port_number capture_file_name data_link_type ∧
  stop_capture project_id node_id a1 port_number =
    stop_capture project_id node_id a2 port_number ∧
  stream_pcap_file project_id node_id a1 port_number =
    stream_pcap_file project_id node_id a2 port_number ∧
  ∀ m : manager,
    run_handler (create_nio project_id node_id a1 port_number nio_data) m =
      run_handler (create_nio project_id node_id 0 port_number nio_data) m ∧
    run_handler (delete_nio project_id node_id a1 port_number) m =
      run_handler (delete_nio project_id node_id 0 port_number) m ∧
    run_handler (start_capture project_id node_id a1 port_number
                   capture_file_name data_link_type) m =
      run_handler (start_capture project_id node_id 0 port_number
                     capture_file_name data_link_type) m ∧
    run_handler (stop_capture project_id node_id a1 port_number) m =
      run_handler (stop_capture project_id node_id 0 port_number) m ∧
    run_handler (stream_pcap_file project_id node_id a1 port_number) m =
      run_handler (stream_pcap_file project_id node_id 0 port_number) m ∧
    turn (create_nio project_id node_id a1 port_number nio_data) m =
      turn (create_nio project_id node_id 0 port_number nio_data) m ∧
    turn (delete_nio project_id node_id a1 port_number) m =
      turn (delete_nio project_id node_id 0 port_number) m.
Proof. repeat split; reflexivity. Qed.

(** C9.  [start_ethernet_hub], [stop_ethernet_hub] and
    [suspend_ethernet_hub] only look the node up: the backend is left as
    it was, the lookup is their only call, they reply when the node exists
    and fail with not-found when it does not. *)
Theorem start_stop_suspend_change_nothing `{Backend} (m : manager)
    (project_id node_id : string) :
  run_handler (start_ethernet_hub project_id node_id) m =
    (match manager_get_node m node_id project_id with
     | Some _ => inr tt
     | None => inl NotFound
     end, m, [Invoked (GetNode node_id project_id)]) ∧
  run_handler (stop_ethernet_hub project_id node_id) m =
    (match manager_get_node m node_id project_id with
     | Some _ => inr tt
     | None => inl NotFound
     end, m, [Invoked (GetNode node_id project_id)]) ∧
  run_handler (suspend_ethernet_hub project_id node_id) m =
    (match manager_get_node m node_id project_id with
     | Some _ => inr tt
     | None => inl NotFound
     end, m, [Invoked (GetNode node_id project_id)]).
Proof.
  repeat split; simpl; by destruct (manager_get_node m node_id project_id).
Qed.

End HubProofs.

(** ** Further properties of server.py *)

Module ServerExtras.
Import Server Samples ServerInvariants Schedules ServerProofs.

#[local] Arguments emit : simpl never.
#[local] Arguments emit_all : simpl never.

(** *** Startup *)

Lemma emit_all_app o es1 es2 w :
  emit_all o (es1 ++ es2) w = emit_all o es2 (emit_all o es1 w).
Proof. unfold emit_all. by rewrite foldl_app. Qed.

Lemma emit_all_trace o es w : trace (emit_all o es w) = trace w ++ ((o,.) <$> es).
Proof. by destruct (emit_all_fields o es w) as (_ & _ & _ & _ & -> & _). Qed.

Lemma emit_all_handlers o es w : handlers (emit_all o es w) = handlers w.
Proof. by destruct (emit_all_fields o es w) as (-> & _). Qed.

Lemma emit_all_reloads o es w : reloads (emit_all o es w) = reloads w.
Proof. by destruct (emit_all_fields o es w) as (_ & -> & _). Qed.

Lemma emit_all_scheduled o es w : scheduled (emit_all o es w) = scheduled w.
Proof. by destruct (emit_all_fields o es w) as (_ & _ & -> & _). Qed.

Lemma calls_before_bind_no_stop env : LoopStop ∉ calls_before_bind env.
Proof.
  unfold calls_before_bind. rewrite !not_elem_of_app. repeat split.
  - apply flat_map_no_stop. intros [method route].
    rewrite !not_elem_of_cons. repeat split; try done. apply not_elem_of_nil.
  - apply flat_map_no_stop. intros module.
    rewrite !not_elem_of_cons. repeat split; try done. apply not_elem_of_nil.
  - rewrite not_elem_of_cons. split; [done|]. apply not_elem_of_nil.
Qed.

(** The part of [run] before the bind, as one run of calls. *)
Lemma before_bind_calls env w :
  emit Main (Log INFO ("Starting server on " +:+ host env +:+ ":" +:+ pretty (port env)))
    (emit_all Main
       (flat_map (λ module, [Log DEBUG ("Loading module " +:+ module);
                             SetPortManager module]) (MODULES env))
       (emit_all Main
          (flat_map (λ '(method, route),
                       [Log DEBUG ("Adding route: " +:+ method +:+ " " +:+ route);
                        AddRoute method route]) (routes env)) w)) =
  emit_all Main (calls_before_bind env) w.
Proof. unfold calls_before_bind. by rewrite !emit_all_app. Qed.

(** What [_signal_handling] leaves in the table of handlers. *)
Lemma signal_handling_handlers env w s :
  handlers (_signal_handling env w) !! s =
  if decide (s ∈ signals env) then Some (signal_handler env s) else handlers w !! s.
Proof.
  unfold _signal_handling. generalize (signals env). intros sigs. revert w.
  induction sigs as [|s' sigs IH]; intros w.
  - cbn [foldl]. case_decide as Hin; [by apply elem_of_nil in Hin | done].
  - cbn [foldl]. rewrite IH.
    assert (∀ w', handlers (if windows env then emit Main (SignalSignal s') w'
                            else emit Main (AddSignalHandler s') w') = handlers w') as ->.
    { intros w'. by destruct (windows env). }
    unfold set_handlers. cbn [handlers].
    destruct (decide (s ∈ sigs)) as [Hin | Hnin].
    + rewrite decide_True; [done|]. by right.
    + destruct (decide (s = s')) as [->|Hne].
      * rewrite decide_True by left. by rewrite lookup_insert_eq.
      * rewrite decide_False, lookup_insert_ne; [done..|].
        rewrite not_elem_of_cons. by split.
Qed.

Lemma signal_handling_fields env w :
  trace (_signal_handling env w) =
    trace w ++ ((Main,.) <$>
      ((if windows env then SignalSignal else AddSignalHandler) <$> signals env)) ∧
  ready (_signal_handling env w) = ready w ∧
  scheduled (_signal_handling env w) = scheduled w ∧
  waiting (_signal_handling env w) = waiting w ∧
  reloads (_signal_handling env w) = reloads w ∧
  mtimes (_signal_handling env w) = mtimes w.
Proof.
  unfold _signal_handling. generalize (signals env). intros sigs. revert w.
  induction sigs as [|s sigs IH]; intros w; simpl.
  - by rewrite app_nil_r.
  - destruct (IH (if windows env
                  then emit Main (SignalSignal s)
                         (set_handlers (λ h, <[s:=signal_handler env s]> h) w)
                  else emit Main (AddSignalHandler s)
                         (set_handlers (λ h, <[s:=signal_handler env s]> h) w)))
      as (-> & -> & -> & -> & -> & ->).
    destruct (windows env); unfold emit; simpl; by rewrite <- app_assoc.
Qed.

(** [run] from the event loop on, whatever the bind does. *)
Lemma start_loop_fields env ctx w :
  ready w = [] → scheduled w = [] →
  ∃ w',
    start_loop env ctx w = Running w' ∧
    trace w' =
      trace w ++ ((Main,.) <$>
        (calls_before_bind env ++ events_of (_run_application env ctx) ++
         calls_after_bind env)) ∧
    ready w' = match bind_failure env with Some _ => [RaiseStop] | None => [] end ∧
    scheduled w' = (if debug env then [ReloadHook] else []) ∧
    waiting w' = waiting w ∧ reloads w' = reloads w ∧ mtimes w' = mtimes w ∧
    ∀ s, handlers w' !! s =
         if decide (s ∈ signals env) then Some (signal_handler env s)
         else handlers w !! s.
Proof.
  intros Hq Hs. unfold start_loop. rewrite before_bind_calls.
  set (w1 := emit_all Main (calls_before_bind env) w).
  assert (ready w1 = [] ∧ scheduled w1 = [] ∧ waiting w1 = waiting w ∧
          reloads w1 = reloads w ∧ mtimes w1 = mtimes w ∧ handlers w1 = handlers w ∧
          trace w1 = trace w ++ ((Main,.) <$> calls_before_bind env))
    as (Hq1 & Hs1 & Hw1 & Hr1 & Hm1 & Hh1 & Ht1).
  { unfold w1. rewrite emit_all_quiet by apply calls_before_bind_no_stop.
    rewrite emit_all_scheduled, emit_all_waiting, emit_all_reloads,
      emit_all_handlers, emit_all_trace.
    by destruct (emit_all_fields Main (calls_before_bind env) w)
      as (_ & _ & _ & -> & _). }
  clearbody w1.
  set (w2 := run_until_complete (_run_application env ctx) w1).
  assert (ready w2 = match bind_failure env with Some _ => [RaiseStop] | None => [] end ∧
          scheduled w2 = [] ∧ waiting w2 = waiting w ∧
          reloads w2 = reloads w ∧ mtimes w2 = mtimes w ∧ handlers w2 = handlers w ∧
          trace w2 = trace w ++ ((Main,.) <$>
            (calls_before_bind env ++ events_of (_run_application env ctx))))
    as (Hq2 & Hs2 & Hw2 & Hr2 & Hm2 & Hh2 & Ht2).
  { unfold w2, run_until_complete, _run_application. simpl.
    rewrite events_suspend.
    destruct (bind_failure env) as [e|]; unfold emit_all, emit; simpl;
      rewrite Hq1, Hs1, Hw1, Hr1, Hm1, Hh1, Ht1, fmap_app, <- !app_assoc; done. }
  clearbody w2.
  set (bind_calls := events_of (_run_application env ctx)) in *. clearbody bind_calls.
  destruct (signal_handling_fields env w2) as (Ht3 & Hq3 & Hs3 & Hw3 & Hr3 & Hm3).
  pose proof (signal_handling_handlers env w2) as Hh3.
  unfold calls_after_bind.
  set (sig_calls := (if windows env then SignalSignal else AddSignalHandler) <$> signals env)
    in *.
  clearbody sig_calls.
  destruct (debug env); eexists; (split; [reflexivity|]); unfold emit; simpl;
    rewrite Ht3, Hq3, ?Hs3, Hw3, Hr3, Hm3, Ht2, Hq2, ?Hs2, Hw2, Hr2, Hm2,
      !fmap_app, <- ?app_assoc, ?app_nil_r.
  all: do 6 (split; [done|]).
  all: intros s; by rewrite Hh3, Hh2.
Qed.

(** [run] as a whole when the SSL checks pass. *)
Lemma run_reaches_loop env files :
  ssl env = false ∨ (windows env = false ∧ load_cert_chain env = CertLoaded) →
  ∃ w,
    run env files = Running w ∧
    trace w =
      (Main,.) <$>
        (LoggerSetLevel "asyncio" WARNING ::
         (if windows env then [SetEventLoopProactor] else []) ++
         (if ssl env then [LoadCertChain (certfile env) (certkey env)] else []) ++
         calls_before_bind env ++ events_of (_run_application env (ssl env)) ++
         calls_after_bind env) ∧
    ready w = match bind_failure env with Some _ => [RaiseStop] | None => [] end ∧
    scheduled w = (if debug env then [ReloadHook] else []) ∧
    waiting w = [] ∧ reloads w = [] ∧ mtimes w = files ∧
    ∀ s, handlers w !! s =
         if decide (s ∈ signals env) then Some (signal_handler env s) else None.
Proof.
  intros Hssl. unfold run, _create_ssl_context.
  destruct Hssl as [Hssl | [Hwin Hcert]].
  - rewrite Hssl.
    destruct (windows env);
      (edestruct (start_loop_fields env false) as (w & -> & Ht & Hq & Hs & Hw & Hr & Hm & Hh);
       [..|exists w; split; [reflexivity|]; rewrite Ht, Hq, Hs, Hw, Hr, Hm;
           repeat split; try done; intros s; by rewrite Hh]; done).
  - rewrite Hwin, Hcert.
    destruct (ssl env);
      (edestruct (start_loop_fields env) as (w & -> & Ht & Hq & Hs & Hw & Hr & Hm & Hh);
       [..|exists w; split; [reflexivity|]; rewrite Ht, Hq, Hs, Hw, Hr, Hm;
           repeat split; try done; intros s; by rewrite Hh]; done).
Qed.

(** X1.  When the SSL checks pass and the bind succeeds, [run] gives every
    module the port manager, in registration order, before it binds the
    listener, installs the signal handlers after the bind, schedules the
    watch only in debug mode, and enters [run_forever] with nothing ready,
    nothing waiting and no reload. *)
Theorem startup_in_order env files :
  bind_failure env = None →
  ssl env = false ∨ (windows env = false ∧ load_cert_chain env = CertLoaded) →
  ∃ w,
    run env files = Running w ∧
    trace w =
      (Main,.) <$>
        (LoggerSetLevel "asyncio" WARNING ::
         (if windows env then [SetEventLoopProactor] else []) ++
         (if ssl env then [LoadCertChain (certfile env) (certkey env)] else []) ++
         flat_map (λ '(method, route),
                     [Log DEBUG ("Adding route: " +:+ method +:+ " " +:+ route);
                      AddRoute method route]) (routes env) ++
         flat_map (λ module, [Log DEBUG ("Loading module " +:+ module);
                              SetPortManager module]) (MODULES env) ++
         [Log INFO ("Starting server on " +:+ host env +:+ ":" +:+ pretty (port env));
          CreateServer (host env) (port env) (ssl env)] ++
         ((if windows env then SignalSignal else AddSignalHandler) <$> signals env) ++
         (if debug env
          then [Log INFO "Code live reload is enabled, watching for file changes";
                CallLater 1]
          else [])) ∧
    ready w = [] ∧ waiting w = [] ∧ reloads w = [] ∧
    scheduled w = (if debug env then [ReloadHook] else []).
Proof.
  intros Hbind Hssl.
  destruct (run_reaches_loop env files Hssl) as (w & Hrun & Ht & Hq & Hs & Hw & Hr & _).
  exists w. rewrite Hbind in Hq. repeat split; try done.
  rewrite Ht. unfold calls_before_bind, calls_after_bind, _run_application. simpl.
  rewrite events_suspend, Hbind. simpl. by rewrite <- !app_assoc.
Qed.

Lemma startup_in_order_witness :
  ∃ w, run linux_env ∅ = Running w ∧
       trace w =
         (Main,.) <$>
           [LoggerSetLevel "asyncio" WARNING;
            Log DEBUG "Adding route: GET /version"; AddRoute "GET" "/version";
            Log DEBUG "Loading module Dynamips"; SetPortManager "Dynamips";
            Log DEBUG "Loading module VPCS"; SetPortManager "VPCS";
            Log INFO "Starting server on 0.0.0.0:8000";
            CreateServer "0.0.0.0" 8000 false;
            AddSignalHandler "SIGTERM"; AddSignalHandler "SIGINT";
            AddSignalHandler "SIGHUP"; AddSignalHandler "SIGQUIT"] ∧
       ready w = [] ∧ waiting w = [] ∧ reloads w = [] ∧ scheduled w = [].
Proof.
  apply (startup_in_order linux_env ∅); [reflexivity | by left].
Defined.

(** X2.  When [run] enters [run_forever], the signals that have a handler
    are those of the platform, each with a coroutine of its own that has
    not started: SIGTERM and SIGINT always, SIGBREAK on Windows only,
    SIGHUP and SIGQUIT elsewhere only. *)
Theorem signal_handlers_installed env files w :
  run env files = Running w →
  (∀ s, handlers w !! s =
        if decide (s ∈ signals env) then Some (signal_handler env s) else None) ∧
  (∀ s, s ∈ signals env ↔
        s = "SIGTERM" ∨ s = "SIGINT" ∨
        (windows env = true ∧ s = "SIGBREAK") ∨
        (windows env = false ∧ (s = "SIGHUP" ∨ s = "SIGQUIT"))).
Proof.
  intros Hrun. split.
  - assert (ssl env = false ∨ (windows env = false ∧ load_cert_chain env = CertLoaded))
      as Hssl.
    { unfold run, _create_ssl_context in Hrun.
      destruct (ssl env); [|by left]. right.
      destruct (windows env); [done|]. by destruct (load_cert_chain env). }
    destruct (run_reaches_loop env files Hssl) as (w' & Hrun' & _ & _ & _ & _ & _ & _ & Hh).
    rewrite Hrun in Hrun'. injection Hrun' as <-. exact Hh.
  - intros s. unfold signals.
    destruct (windows env);
      rewrite ?elem_of_app, ?elem_of_cons, ?elem_of_nil; intuition discriminate.
Qed.

Lemma signal_handlers_installed_witness :
  ∃ w, run debug_env touched_files = Running w ∧
       handlers w !! "SIGHUP" = Some (signal_handler debug_env "SIGHUP") ∧
       handlers w !! "SIGBREAK" = None.
Proof.
  destruct (run_reaches_loop debug_env touched_files) as (w & Hrun & _); [by left|].
  exists w. split; [exact Hrun|].
  destruct (signal_handlers_installed debug_env touched_files w Hrun) as [Hh _].
  split.
  - exact (Hh "SIGHUP").
  - exact (Hh "SIGBREAK").
Defined.

(** X3.  With the SSL flag set off Windows, a certificate or key that is
    missing or that the SSL library refuses ends [run] with [SystemExit]
    after the critical message: the listener is not bound, no module gets
    the port manager and no signal handler is installed. *)
Theorem certificate_failure_exits_before_startup env files :
  ssl env = true → windows env = false → load_cert_chain env ≠ CertLoaded →
  run env files =
    Died [(Main, LoggerSetLevel "asyncio" WARNING);
          (Main, LoadCertChain (certfile env) (certkey env));
          (Main, Log CRITICAL
                   match load_cert_chain env with
                   | CertSSLError e => "SSL error: " +:+ e
                   | _ => "Could not find the SSL certfile or certkey"
                   end)]
         "SystemExit".
Proof.
  intros Hssl Hwin Hcert. unfold run, _create_ssl_context. rewrite Hssl, Hwin.
  by destruct (load_cert_chain env).
Qed.

Lemma certificate_failure_exits_before_startup_witness :
  run missing_certificate ∅ =
    Died [(Main, LoggerSetLevel "asyncio" WARNING);
          (Main, LoadCertChain "server.cert" "server.key");
          (Main, Log CRITICAL "Could not find the SSL certfile or certkey")]
         "SystemExit".
Proof.
  apply (certificate_failure_exits_before_startup missing_certificate ∅);
    [reflexivity | reflexivity | discriminate].
Defined.

(** *** The reload watch *)

Lemma append_cons a p q : String a p +:+ q = String a (p +:+ q).
Proof. reflexivity. Qed.

Lemma length_append p q :
  String.length (p +:+ q) = String.length p + String.length q.
Proof.
  induction p as [|a p IH]; [done|]. rewrite append_cons. simpl. by rewrite IH.
Qed.

Lemma substring_all q : String.substring 0 (String.length q) q = q.
Proof. induction q as [|a q IH]; [done|]. simpl. by rewrite IH. Qed.

Lemma substring_suffix p q :
  String.substring (String.length p) (String.length q) (p +:+ q) = q.
Proof.
  induction p as [|a p IH]; [apply substring_all|]. rewrite append_cons. exact IH.
Qed.

Lemma substring_prefix p q n :
  String.substring 0 (String.length p + n) (p +:+ q) = p +:+ String.substring 0 n q.
Proof.
  induction p as [|a p IH]; [done|]. rewrite !append_cons. simpl. by rewrite IH.
Qed.

(** [(p + q).endswith(q)] *)
Lemma endswith_append p q : endswith (p +:+ q) q = true.
Proof.
  unfold endswith. rewrite length_append.
  replace (String.length p + String.length q - String.length q)
    with (String.length p) by lia.
  rewrite substring_suffix, String.eqb_refl, andb_true_r.
  apply Nat.leb_le. lia.
Qed.

(** X4.  A compiled file is watched through its source: for a module
    whose [__file__] ends in [.pyc] or [.pyo] the watch looks at the path
    without its last character, which ends in [.py]; values of
    [sys.modules] that are no modules or have no file are not looked
    at. *)
Theorem compiled_file_is_watched_by_its_source (stem : string) :
  watched_path {| is_module := true; file := Some (stem +:+ ".pyc") |}
    = Some (stem +:+ ".py") ∧
  watched_path {| is_module := true; file := Some (stem +:+ ".pyo") |}
    = Some (stem +:+ ".py") ∧
  (∀ file, watched_path {| is_module := false; file := file |} = None) ∧
  watched_path {| is_module := true; file := None |} = None ∧
  watched_path {| is_module := true; file := Some "" |} = None.
Proof.
  assert (∀ ext, String.length ext = 4 →
            String.eqb (stem +:+ ext) "" = false) as Hne.
  { intros ext Hext. apply String.eqb_neq. intros Heq.
    apply (f_equal String.length) in Heq. rewrite length_append, Hext in Heq.
    simpl in Heq. lia. }
  assert (∀ ext, String.length ext = 4 →
            drop_last (stem +:+ ext) = stem +:+ String.substring 0 3 ext) as Hdrop.
  { intros ext Hext. unfold drop_last. rewrite length_append, Hext.
    replace (String.length stem + 4 - 1) with (String.length stem + 3) by lia.
    apply substring_prefix. }
  repeat split; try done.
  - unfold watched_path. simpl.
    by rewrite Hne, endswith_append, Hdrop.
  - unfold watched_path. simpl.
    rewrite Hne, (endswith_append stem ".pyo"), orb_true_r, Hdrop; done.
Qed.

(** The scan when no watched file is newer than the start of the
    process. *)
Lemma scan_nothing_newer env mods w :
  (∀ m path, m ∈ mods → watched_path m = Some path →
             ∃ t, mtimes w !! path = Some t ∧ (t ≤ start_time env)%Z) →
  scan env mods w = (w, true).
Proof.
  induction mods as [|m mods IH]; intros Hold; simpl; [done|].
  assert (scan env mods w = (w, true)) as IH'.
  { apply IH. intros m' path Hin. apply Hold. by right. }
  destruct (watched_path m) as [path|] eqn:Hpath; [|done].
  destruct (Hold m path) as (t & -> & Ht); [left | done |].
  assert ((start_time env <? t)%Z = false) as -> by (apply Z.ltb_ge; lia).
  done.
Qed.

(** X5.  The watch starts a reload only for a file that is strictly newer
    than the start of the process: when every watched file has a
    modification time at or before the start time, the scan starts no
    task, touches no coroutine and only schedules the next scan. *)
Theorem watch_needs_strictly_newer_file env w :
  (∀ m path, m ∈ sys_modules env → watched_path m = Some path →
             ∃ t, mtimes w !! path = Some t ∧ (t ≤ start_time env)%Z) →
  _reload_hook env w = call_later ReloadHook (emit Watch (CallLater 1) w).
Proof.
  intros Hold. unfold _reload_hook. by rewrite scan_nothing_newer.
Qed.

Lemma watch_needs_strictly_newer_file_witness :
  _reload_hook debug_env (set_mtimes (λ _, untouched_files) watching) =
  call_later ReloadHook
    (emit Watch (CallLater 1) (set_mtimes (λ _, untouched_files) watching)).
Proof.
  apply (watch_needs_strictly_newer_file debug_env
           (set_mtimes (λ _, untouched_files) watching)).
  intros m path Hin Hpath.
  repeat (apply elem_of_cons in Hin as [-> | Hin];
          [vm_compute in Hpath;
           first [ discriminate Hpath
                 | simplify_eq; exists 500%Z; split;
                   [vm_compute; reflexivity | vm_compute; discriminate] ]|]).
  by apply elem_of_nil in Hin.
Defined.

(** The scan stops at the first file that [os.stat] refuses. *)
Lemma scan_stat_failure env mods w m path :
  m ∈ mods → watched_path m = Some path → mtimes w !! path = None →
  (scan env mods w).2 = false.
Proof.
  revert w. induction mods as [|m' mods IH]; intros w Hin Hpath Hstat.
  - by apply elem_of_nil in Hin.
  - simpl. destruct (watched_path m') as [path'|] eqn:Hpath'.
    + destruct (mtimes w !! path') as [t|] eqn:Ht; [|done].
      apply elem_of_cons in Hin as [-> | Hin]; [congruence|].
      destruct (start_time env <? t)%Z; apply IH; try done.
    + apply elem_of_cons in Hin as [-> | Hin]; [congruence|]. by apply IH.
Qed.

(** X6.  When [os.stat] fails on a watched file (the file was removed),
    the exception ends [_reload_hook] before it schedules itself again:
    the reloads found before the failure are started, no scan is
    scheduled and the watch makes no further call. *)
Theorem watch_ends_when_stat_fails env w m path :
  m ∈ sys_modules env → watched_path m = Some path → mtimes w !! path = None →
  _reload_hook env w = (scan env (sys_modules env) w).1 ∧
  scheduled (_reload_hook env w) = scheduled w ∧
  ready (_reload_hook env w) =
    ready w ++ ((λ n, Step (Reloader n)) <$>
                  seq (length (reloads w)) (spawned env (mtimes w) (sys_modules env))).
Proof.
  intros Hin Hpath Hstat.
  pose proof (scan_stat_failure env (sys_modules env) w m path Hin Hpath Hstat) as Hfail.
  destruct (scan_fields env (sys_modules env) w) as (_ & Hs & _ & _ & _ & Hq & _).
  unfold _reload_hook.
  destruct (scan env (sys_modules env) w) as [w' ok]. simpl in *. subst ok.
  repeat split; done.
Qed.

Lemma watch_ends_when_stat_fails_witness :
  scheduled (_reload_hook debug_env (set_mtimes (λ _, ∅) watching)) = [] ∧
  ready (_reload_hook debug_env (set_mtimes (λ _, ∅) watching)) = [].
Proof.
  destruct (watch_ends_when_stat_fails debug_env (set_mtimes (λ _, ∅) watching)
              {| is_module := true; file := Some "/srv/gns3server/server.pyc" |}
              "/srv/gns3server/server.py") as (_ & Hs & Hq).
  - left.
  - vm_compute. reflexivity.
  - vm_compute. reflexivity.
  - split; [exact Hs | exact Hq].
Defined.

(** *** A shutdown that cannot complete *)

Lemma resume_in_events c e : e ∈ (resume c).1.1 → e ∈ events_of c.
Proof. intros Hin. rewrite (resume_events c). apply elem_of_app. by left. Qed.

Lemma resume_execed_in_events c path args :
  (resume c).2 = Execed path args → Execv path args ∈ events_of c.
Proof.
  intros Hst. rewrite (resume_events c), (resume_execed c path args Hst).
  apply elem_of_app. right. left.
Qed.

(** What a coroutine of the loop has left to do is part of its body. *)
Lemma lookup_coro_body env w o c e :
  coherent env w → lookup_coro o w = Some c → e ∈ events_of c → e ∈ body_calls env o.
Proof.
  intros [H1 _ H3 _] Hc Hin. destruct o as [| s | n |]; simpl in *; try done.
  - destruct (H1 s c Hc) as [k ->]. rewrite !elem_of_app. auto.
  - destruct (H3 n c Hc) as [k ->]. rewrite !elem_of_app. auto.
Qed.

(** When the unload of some module raises, no coroutine of the file ever
    stops the loop or replaces the process. *)
Lemma failing_registry_bodies env o :
  Exists (raises env) (MODULES env) →
  (LoopStop ∉ body_calls env o) ∧ ∀ path args, Execv path args ∉ body_calls env o.
Proof.
  intros Hfail.
  assert ((LoopStop ∉ events_of (_stop_application env)) ∧
          outcome_of (_stop_application env) ≠ Returned) as [Hstop Hout].
  { destruct (split_at_first_failure env (MODULES env))
      as [Hok | (good & m & rest & exc & HM & Hgood & Hexc)].
    - exfalso. apply Exists_exists in Hfail as (m & Hin & Hm).
      by eapply Forall_forall in Hok.
    - destruct (stop_application_failure env good m rest exc HM Hgood Hexc) as [-> ->].
      split; [|done].
      rewrite elem_of_app, !elem_of_cons, elem_of_nil.
      intros [Hin | [Hin | [Hin | []]]]; [|done..].
      by apply (LoopStop_not_unloaded good). }
  destruct o as [| s | n |]; cbn [body_calls].
  - split; [|intros ? ?]; apply not_elem_of_nil.
  - split; [|intros; apply signal_handler_no_execv].
    rewrite signal_handler_events, not_elem_of_cons. by split.
  - rewrite reload_events.
    destruct (outcome_of (_stop_application env)); [done|..];
      rewrite app_nil_r; (split; [|intros p' a']);
      rewrite not_elem_of_cons; (split; [done|]);
      first [done | apply stop_application_no_execv].
  - split; [|intros ? ?]; apply not_elem_of_nil.
Qed.

(** Membership of a callback in queues built from others. *)
Ltac queue_members H :=
  let cb := fresh "cb" in
  let Hin := fresh "Hin" in
  intros cb Hin;
  rewrite ?elem_of_app, ?elem_of_cons, ?list_elem_of_singleton, ?elem_of_nil in Hin;
  destruct_or? Hin;
  first [ by subst
        | by (apply H; rewrite ?elem_of_app, ?elem_of_cons; auto)
        | by (apply list_elem_of_fmap in Hin as (? & -> & _))
        | by (apply H; rewrite ?elem_of_app, ?elem_of_cons;
              eauto using list_elem_of_delete_inv, list_elem_of_lookup_2)
        | done ].

Lemma never_stopping_act env p a :
  Exists (raises env) (MODULES env) → windows env = false →
  never_stopping env p → never_stopping env (act env p a).
Proof.
  intros Hfail Hwin. destruct p as [w | | |]; simpl; try done.
  intros [Hw Hq].
  pose proof (sound_act env (Running w) a Hw) as Hsound.
  destruct a as [s | | path mtime | i |]; simpl in *.
  - unfold deliver in *. destruct (handlers w !! s); [|done].
    rewrite Hwin in *. simpl. split; [done|]. queue_members Hq.
  - split; [done|]. simpl. queue_members Hq.
  - done.
  - unfold wake in *. destruct (waiting w !! i) as [cb|] eqn:Hi; [|done].
    split; [done|]. simpl.
    assert (cb ∈ waiting w) as Hcb by (by eapply list_elem_of_lookup_2).
    intros cb' Hin.
    rewrite ?elem_of_app, ?list_elem_of_singleton in Hin.
    apply Hq. rewrite ?elem_of_app.
    destruct Hin as [[Hin | ->] | [Hin | Hin]]; auto.
    right. right. by eapply list_elem_of_delete_inv.
  - unfold run_once in *.
    destruct (ready w) as [|cb rest] eqn:Hready.
    { split; [done|]. by rewrite Hready. }
    assert (∀ cb', cb' ∈ rest ++ scheduled w ++ waiting w → cb' ≠ RaiseStop) as Hrest
      by queue_members Hq.
    assert (cb ≠ RaiseStop) as Hcb by (apply Hq; left).
    destruct cb as [o | o | |]; try done.
    + split; [done|]. simpl. queue_members Hrest.
    + destruct (lookup_coro o _) as [c|] eqn:Hc; [|done].
      assert (coherent env (set_ready (λ _, rest) w)) as Hw'
        by (by eapply coherent_ext; [..|exact Hw]).
      destruct (awaiting o _).
      { destruct (store_coro_fields o (Throw "AssertionError") (set_ready (λ _, rest) w))
          as (Hq0 & Hs0 & Hw0 & _).
        split; [done|]. rewrite Hq0, Hs0, Hw0. exact Hrest. }
      destruct (failing_registry_bodies env o Hfail) as [Hnostop Hnoexec].
      assert (LoopStop ∉ (resume c).1.1) as Hquiet.
      { intros Hin. apply Hnostop.
        by eapply lookup_coro_body, resume_in_events. }
      pose proof (resume_execed_in_events c) as Hexec.
      pose proof (emit_all_quiet o (resume c).1.1 (set_ready (λ _, rest) w) Hquiet) as Hq1.
      pose proof (emit_all_scheduled o (resume c).1.1 (set_ready (λ _, rest) w)) as Hs1.
      pose proof (emit_all_waiting o (resume c).1.1 (set_ready (λ _, rest) w)) as Hw1.
      destruct (store_coro_fields o (resume c).1.2
                  (emit_all o (resume c).1.1 (set_ready (λ _, rest) w)))
        as (Hq2 & Hs2 & Hw2 & _).
      destruct (resume c) as [[es c'] st]. simpl in *.
      destruct st as [| | path args].
      * split; [done|]. simpl. rewrite Hq2, Hs2, Hw2, Hq1, Hs1, Hw1. simpl.
        queue_members Hrest.
      * split; [done|]. rewrite Hq2, Hs2, Hw2, Hq1, Hs1, Hw1. simpl.
        queue_members Hrest.
      * exfalso. apply (Hnoexec path args).
        eapply lookup_coro_body; [exact Hw' | exact Hc |]. by apply Hexec.
    + split; [done|]. unfold _reload_hook in *.
      destruct (scan_fields env (sys_modules env) (set_ready (λ _, rest) w))
        as (_ & Hs & Hwt & _ & _ & Hq' & _).
      destruct (scan env (sys_modules env) (set_ready (λ _, rest) w)) as [w' ok].
      simpl in *.
      assert (∀ cb', cb' ∈ ready w' ++ scheduled w' ++ waiting w' → cb' ≠ RaiseStop)
        as Hq''.
      { rewrite Hq', Hs, Hwt. queue_members Hrest. }
      destruct ok; [|done]. simpl. queue_members Hq''.
Qed.

(** X7.  When the unload of some registered module raises, the server
    cannot be shut down or reloaded: off Windows, once [run] has bound the
    listener, whatever signals are delivered, files are written and time
    passes, [run_forever] never returns and the process is never
    replaced. *)
Theorem failing_unload_keeps_server_running env files acts :
  Exists (raises env) (MODULES env) →
  windows env = false → bind_failure env = None →
  ssl env = false ∨ load_cert_chain env = CertLoaded →
  is_running (execute env acts (run env files)) = true.
Proof.
  intros Hfail Hwin Hbind Hssl.
  assert (never_stopping env (execute env acts (run env files))) as Hinv.
  { induction acts as [|a acts IH] using rev_ind.
    - assert (ssl env = false ∨ (windows env = false ∧ load_cert_chain env = CertLoaded))
        as Hssl' by (destruct Hssl; auto).
      destruct (run_reaches_loop env files Hssl')
        as (w & Hrun & _ & Hq & Hs & Hwt & _).
      pose proof (sound_run env files) as Hsound.
      simpl. rewrite Hrun in *. split; [done|].
      rewrite Hq, Hs, Hwt, Hbind. destruct (debug env); simpl; intros cb Hin;
        rewrite ?elem_of_cons, ?elem_of_nil in Hin; by destruct_or? Hin; subst.
    - rewrite execute_snoc. by apply never_stopping_act. }
  by destruct (execute env acts (run env files)).
Qed.

Lemma failing_unload_keeps_server_running_witness :
  is_running (execute dynamips_fails sigterm_only (run dynamips_fails ∅)) = true.
Proof.
  apply (failing_unload_keeps_server_running dynamips_fails ∅ sigterm_only).
  - apply Exists_cons_hd. by exists "DynamipsError".
  - reflexivity.
  - reflexivity.
  - by left.
Defined.

(** *** A shutdown that completes *)

Lemma yield_from_return c : yield_from c Return = c.
Proof. induction c; simpl; congruence. Qed.

Lemma stops_last_not_return c : stops_last c → c ≠ Return.
Proof. by destruct c. Qed.

Lemma stops_last_do e k :
  e ≠ LoopStop → stops_last k → stops_last (Do e k).
Proof. intros He Hk. simpl. by destruct k. Qed.

Lemma plain_yield_from a b : plain a → plain b → plain (yield_from a b).
Proof.
  intros Ha Hb. induction a as [| exc | e a IH | a IH | path args]; simpl in *;
    try done; auto.
  destruct Ha. auto.
Qed.

Lemma stops_last_yield_from a b :
  plain a → stops_last b → stops_last (yield_from a b).
Proof.
  intros Ha Hb. induction a as [| exc | e a IH | a IH | path args]; try done.
  - destruct Ha as [He Ha]. cbn [yield_from]. apply stops_last_do; auto.
  - cbn [yield_from stops_last]. auto.
Qed.

Lemma yields_yield_from a b :
  plain a → yields (yield_from a b) = yields a + yields b.
Proof.
  intros Ha. induction a as [| exc | e a IH | a IH | path args]; simpl in *;
    try done; auto.
  destruct Ha. auto.
Qed.

Lemma plain_suspend n k : plain k → plain (suspend n k).
Proof. induction n; simpl; auto. Qed.

Lemma yields_suspend n k : yields (suspend n k) = n + yields k.
Proof. induction n; simpl; auto. Qed.

Lemma unload_step_plain env m :
  ¬ raises env m →
  plain (unload_step env m) ∧ yields (unload_step env m) = suspensions (behaviour env m).
Proof.
  intros Hok. unfold unload_step, unload, raises in *. simpl.
  rewrite yields_suspend. destruct (failure (behaviour env m)) as [exc|] eqn:Hf.
  - exfalso. apply Hok. by exists exc.
  - simpl. split; [|lia]. repeat split; try done. by apply plain_suspend.
Qed.

Lemma stop_application_stops_last env :
  Forall (λ m, ¬ raises env m) (MODULES env) →
  stops_last (_stop_application env) ∧
  yields (_stop_application env) = total_suspensions env.
Proof.
  unfold _stop_application, total_suspensions.
  induction 1 as [|m ms Hm _ [IH1 IH2]]; [done|].
  destruct (unload_step_plain env m Hm) as [Hp Hy].
  cbn [for_each]. rewrite fmap_cons. split.
  - by apply stops_last_yield_from.
  - rewrite yields_yield_from, Hy, IH2 by done. done.
Qed.

Lemma signal_handler_stops_last env s :
  Forall (λ m, ¬ raises env m) (MODULES env) →
  stops_last (signal_handler env s) ∧
  yields (signal_handler env s) = total_suspensions env.
Proof.
  intros Hok. destruct (stop_application_stops_last env Hok) as [H1 H2].
  unfold signal_handler. rewrite yield_from_return. split.
  - by apply stops_last_do.
  - done.
Qed.

(** One step of a coroutine that stops the loop last: it is suspended
    without having stopped the loop, or it ends with [loop.stop()]. *)
Lemma resume_stops_last c :
  stops_last c →
  match (resume c).2 with
  | Suspended =>
      (LoopStop ∉ (resume c).1.1) ∧ stops_last (resume c).1.2 ∧
      yields c = S (yields (resume c).1.2)
  | Finished =>
      ∃ es, (resume c).1.1 = es ++ [LoopStop] ∧ (LoopStop ∉ es) ∧
            (resume c).1.2 = Return
  | Execed _ _ => False
  end.
Proof.
  induction c as [| exc | e c IH | c IH | path args]; try done.
  - intros Hc. simpl in Hc. cbn [resume].
    destruct c as [| exc | e' c' | c' | path args]; try (by destruct Hc).
    + subst e. simpl. exists []. repeat split; try done. apply not_elem_of_nil.
    + destruct Hc as [He Hc]. specialize (IH Hc).
      destruct (resume (Do e' c')) as [[es c''] st]. simpl in *.
      destruct st as [| | p a]; [| |done].
      * destruct IH as (H1 & H2 & H3). repeat split; try done.
        rewrite not_elem_of_cons. by split.
      * destruct IH as (es' & -> & H1 & H2). exists (e :: es').
        repeat split; try done. rewrite not_elem_of_cons. by split.
    + destruct Hc as [He Hc]. specialize (IH Hc). simpl in *.
      destruct IH as (_ & H2 & H3). repeat split; try done.
      rewrite not_elem_of_cons. split; [done|]. apply not_elem_of_nil.
  - intros Hc. simpl. repeat split; try done. apply not_elem_of_nil.
Qed.

Lemma execute_cons env a acts p :
  execute env (a :: acts) p = execute env acts (act env p a).
Proof. reflexivity. Qed.

Lemma execute_ended env acts tr : execute env acts (Ended tr) = Ended tr.
Proof. induction acts as [|a acts IH]; [done|]. by rewrite execute_cons. Qed.

(** A step of the task at the head of the queue. *)
Lemma run_once_step env w o c rest :
  ready w = Step o :: rest → lookup_coro o w = Some c → waiting w = [] →
  run_once env w =
    match (resume c).2 with
    | Suspended =>
        Running (wait_for (Step o)
                   (store_coro o (resume c).1.2
                      (emit_all o (resume c).1.1 (set_ready (λ _, rest) w))))
    | Finished =>
        Running (store_coro o (resume c).1.2
                   (emit_all o (resume c).1.1 (set_ready (λ _, rest) w)))
    | Execed path args =>
        Execd (trace (store_coro o (resume c).1.2
                        (emit_all o (resume c).1.1 (set_ready (λ _, rest) w)))
               ++ [(o, Execv path args)]) path args
    end.
Proof.
  intros Hq Hc Hwt. unfold run_once. rewrite Hq.
  assert (lookup_coro o (set_ready (λ _, rest) w) = Some c) as -> by (by destruct o).
  unfold awaiting. cbn [waiting set_ready]. rewrite Hwt.
  rewrite bool_decide_eq_false_2 by apply not_elem_of_nil.
  by destruct (resume c) as [[es c'] st].
Qed.

(** The task of a signal handler, alone on the loop, runs to the stop of
    the loop when each thing it awaits completes. *)
Ltac loop_fields :=
  cbn [handlers reloads ready scheduled waiting mtimes trace
       set_handlers set_reloads set_ready set_scheduled set_waiting set_mtimes
       set_trace call_soon call_later wait_for store_coro].

Lemma drive_handler env s k : ∀ c w,
  handlers w !! s = Some c → ready w = [Step (Handler s)] → waiting w = [] →
  stops_last c → (yields c + 2 ≤ k)%nat →
  execute env (cycles k) (Running w) =
    Ended (trace w ++ ((Handler s,.) <$> events_of c)).
Proof.
  induction k as [|k IH]; intros c w Hc Hq Hwt Hlast Hk; [lia|].
  cbn [cycles]. rewrite !execute_cons. cbn [act].
  rewrite (run_once_step env w (Handler s) c []) by done.
  pose proof (resume_stops_last c Hlast) as Hres.
  pose proof (resume_events c) as Hev.
  destruct (resume c) as [[es c'] st]. simpl in Hres, Hev. cbn [fst snd].
  destruct st as [| | path args]; [| |done].
  - destruct Hres as (Hquiet & Hlast' & Hy).
    pose proof (emit_all_quiet (Handler s) es (set_ready (λ _, []) w) Hquiet) as Hq1.
    pose proof (emit_all_waiting (Handler s) es (set_ready (λ _, []) w)) as Hw1.
    pose proof (emit_all_trace (Handler s) es (set_ready (λ _, []) w)) as Ht1.
    cbn [act]. unfold wake. loop_fields.
    rewrite Hw1. loop_fields. rewrite Hwt. cbn [app lookup list_lookup].
    rewrite IH with (c := c').
    + loop_fields. rewrite Ht1. loop_fields.
      by rewrite Hev, fmap_app, app_assoc.
    + loop_fields. apply lookup_insert_eq.
    + loop_fields. by rewrite Hq1.
    + loop_fields. rewrite Hw1. loop_fields. by rewrite Hwt.
    + done.
    + lia.
  - destruct Hres as (es' & -> & Hquiet & ->).
    pose proof (emit_all_quiet (Handler s) es' (set_ready (λ _, []) w) Hquiet) as Hq1.
    pose proof (emit_all_waiting (Handler s) (es' ++ [LoopStop]) (set_ready (λ _, []) w))
      as Hw1.
    pose proof (emit_all_trace (Handler s) (es' ++ [LoopStop]) (set_ready (λ _, []) w))
      as Ht1.
    cbn [act]. unfold wake. loop_fields.
    rewrite Hw1. loop_fields. rewrite Hwt. cbn [lookup list_lookup].
    destruct k as [|k]; [lia|].
    cbn [cycles]. rewrite execute_cons. cbn [act]. unfold run_once.
    loop_fields. rewrite emit_all_app.
    unfold emit_all at 1. cbn [foldl]. unfold emit at 1. loop_fields.
    rewrite Hq1. loop_fields. cbn [app].
    rewrite execute_ended. f_equal.
    rewrite emit_all_trace. loop_fields.
    rewrite emit_all_trace. loop_fields.
    rewrite Hev. simpl. by rewrite app_nil_r, fmap_app, app_assoc.
Qed.

(** X8.  Off Windows, with modules whose unloads all return, one
    delivered termination signal shuts the server down: when the loop runs
    and each unload completes, the handler unloads every module in
    registration order and stops the loop, and [run_forever] returns. *)
Theorem single_signal_shuts_server_down env files s k :
  Forall (λ m, ¬ raises env m) (MODULES env) →
  windows env = false → bind_failure env = None →
  ssl env = false ∨ load_cert_chain env = CertLoaded →
  s ∈ signals env →
  (total_suspensions env + 2 ≤ k)%nat →
  execute env (Deliver s :: RunOnce :: cycles k) (run env files) =
    Ended (history (run env files) ++
           ((Handler s,.) <$> events_of (signal_handler env s))) ∧
  unload_returns (events_of (signal_handler env s)) = MODULES env.
Proof.
  intros Hok Hwin Hbind Hssl Hs Hk.
  assert (ssl env = false ∨ (windows env = false ∧ load_cert_chain env = CertLoaded))
    as Hssl' by (destruct Hssl; auto).
  destruct (run_reaches_loop env files Hssl')
    as (w & Hrun & _ & Hq & _ & Hwt & _ & _ & Hh).
  rewrite Hbind in Hq. specialize (Hh s). rewrite decide_True in Hh by done.
  destruct (signal_handler_stops_last env s Hok) as [Hlast Hy].
  split.
  - rewrite Hrun, !execute_cons. cbn [act history]. unfold deliver. rewrite Hh, Hwin.
    cbn [act]. unfold run_once. loop_fields. rewrite Hq. cbn [app].
    rewrite (drive_handler env s k (signal_handler env s)); [done|done|done|done|done|lia].
  - rewrite signal_handler_events.
    destruct (stop_application_complete env Hok) as (_ & H2 & _). done.
Qed.

Lemma single_signal_shuts_server_down_witness :
  execute slow_unload (Deliver "SIGTERM" :: RunOnce :: cycles 4) (run slow_unload ∅) =
    Ended (history (run slow_unload ∅) ++
           ((Handler "SIGTERM",.) <$> events_of (signal_handler slow_unload "SIGTERM"))) ∧
  unload_returns (events_of (signal_handler slow_unload "SIGTERM")) = ["Dynamips"; "VPCS"].
Proof.
  apply (single_signal_shuts_server_down slow_unload ∅ "SIGTERM" 4).
  - repeat constructor; vm_compute; intros [x Hx]; discriminate.
  - reflexivity.
  - reflexivity.
  - by left.
  - left.
  - vm_compute. lia.
Defined.

(** *** The watch is off, or runs one scan at a time *)

Ltac queue_origin H :=
  let cb := fresh "cb" in
  let Hin := fresh "Hin" in
  intros cb Hin;
  rewrite ?elem_of_app, ?elem_of_cons, ?list_elem_of_singleton, ?elem_of_nil in Hin;
  destruct_or? Hin;
  first [ by subst
        | by (apply H; rewrite ?elem_of_app, ?elem_of_cons; auto)
        | by (apply elem_of_replicate in Hin as [-> _])
        | by (apply list_elem_of_fmap in Hin as (? & -> & _))
        | done ].

Lemma without_watch_act env p a :
  without_watch env p → without_watch env (act env p a).
Proof.
  destruct p as [w | | |]; simpl; try done.
  intros (Hw & Hr & Hq).
  pose proof (sound_act env (Running w) a Hw) as Hsound.
  destruct a as [s | | path mtime | i |]; simpl in *.
  - unfold deliver in *. destruct (handlers w !! s); [|done].
    destruct (windows env); [done|]. simpl. split; [done|split; [done|]].
    queue_origin Hq.
  - split; [done|split; [done|]]. simpl. queue_origin Hq.
  - done.
  - unfold wake in *. destruct (waiting w !! i) as [cb|] eqn:Hi; [|done].
    split; [done|split; [done|]]. simpl.
    assert (cb ∈ waiting w) as Hcb by (by eapply list_elem_of_lookup_2).
    intros cb' Hin.
    rewrite ?elem_of_app, ?list_elem_of_singleton in Hin.
    apply Hq. rewrite ?elem_of_app.
    destruct Hin as [[Hin | ->] | [Hin | Hin]]; auto.
    right. right. by eapply list_elem_of_delete_inv.
  - unfold run_once in *.
    destruct (ready w) as [|cb rest] eqn:Hready.
    { split; [done|split; [done|]]. by rewrite Hready. }
    assert (∀ cb', cb' ∈ rest ++ scheduled w ++ waiting w → cb' ≠ ReloadHook) as Hrest
      by queue_origin Hq.
    assert (cb ≠ ReloadHook) as Hcb by (apply Hq; left).
    destruct cb as [o | o | |]; try done.
    + split; [done|split; [done|]]. simpl. queue_origin Hrest.
    + destruct (lookup_coro o _) as [c|] eqn:Hc; [|done].
      assert (coherent env (set_ready (λ _, rest) w)) as Hw'
        by (by eapply coherent_ext; [..|exact Hw]).
      destruct o as [| s | n |]; simpl in Hc; try done; [|by rewrite Hr in Hc].
      destruct (awaiting (Handler s) _).
      { split; [done|]. split; [done|]. exact Hrest. }
      pose proof (resume_execed_in_events c) as Hexec.
      destruct (emit_all_fields (Handler s) (resume c).1.1 (set_ready (λ _, rest) w))
        as (_ & Hr1 & Hs1 & _ & _ & k & Hq1).
      pose proof (emit_all_waiting (Handler s) (resume c).1.1 (set_ready (λ _, rest) w))
        as Hw1.
      destruct (resume c) as [[es c'] st]. simpl in *.
      destruct st as [| | path args].
      * split; [done|]. simpl. rewrite Hr1, Hq1, Hs1, Hw1. split; [done|].
        queue_origin Hrest.
      * split; [done|]. simpl. rewrite Hr1, Hq1, Hs1, Hw1. split; [done|].
        queue_origin Hrest.
      * apply (signal_handler_no_execv env s path args).
        apply (lookup_coro_body env (set_ready (λ _, rest) w) (Handler s) c);
          [exact Hw' | exact Hc |].
        by apply Hexec.
Qed.

(** X9.  Without the debug flag the watch is never started: whatever
    happens to the running server, no scan runs, no reload coroutine is
    ever made and the process is never replaced by [os.execv]. *)
Theorem no_reload_without_debug env files acts :
  debug env = false →
  match execute env acts (run env files) with
  | Running w => reloads w = [] ∧ (ReloadHook ∉ ready w ++ scheduled w ++ waiting w)
  | Execd _ _ _ => False
  | _ => True
  end.
Proof.
  intros Hdebug.
  assert (without_watch env (execute env acts (run env files))) as Hinv.
  { induction acts as [|a acts IH] using rev_ind.
    - pose proof (sound_run env files) as Hsound.
      pose proof (run_pristine env files) as Hrun.
      simpl. destruct (run env files) as [w | | |] eqn:Hrun'; try done.
      assert (ssl env = false ∨ (windows env = false ∧ load_cert_chain env = CertLoaded))
        as Hssl.
      { unfold run, _create_ssl_context in Hrun'.
        destruct (ssl env); [|by left]. right.
        destruct (windows env); [done|]. by destruct (load_cert_chain env). }
      destruct (run_reaches_loop env files Hssl)
        as (w' & Hw' & _ & Hq & Hs & Hwt & Hr & _).
      rewrite Hrun' in Hw'. injection Hw' as <-.
      split; [exact Hsound|split; [done|]]. rewrite Hq, Hs, Hwt, Hdebug.
      intros cb Hin. destruct (bind_failure env);
        rewrite ?elem_of_app, ?elem_of_cons, ?elem_of_nil in Hin;
        by destruct_or? Hin; subst.
    - rewrite execute_snoc. by apply without_watch_act. }
  destruct (execute env acts (run env files)) as [w | | |]; try done.
  destruct Hinv as (_ & Hr & Hq). split; [done|]. intros Hin. by apply (Hq _ Hin).
Qed.

Lemma no_reload_without_debug_witness :
  match execute linux_env [Elapse; RunOnce; Touch "/srv/gns3server/config.py" 5000; Elapse; RunOnce]
          (run linux_env touched_files) with
  | Running w => reloads w = [] ∧ (ReloadHook ∉ ready w ++ scheduled w ++ waiting w)
  | Execd _ _ _ => False
  | _ => True
  end.
Proof.
  apply (no_reload_without_debug linux_env touched_files). reflexivity.
Defined.

Lemma hooks_app q1 q2 : hooks (q1 ++ q2) = hooks q1 + hooks q2.
Proof. unfold hooks. by rewrite filter_app, length_app. Qed.

Lemma hooks_cons cb q :
  hooks (cb :: q) = (if decide (cb = ReloadHook) then 1 else 0) + hooks q.
Proof. unfold hooks. rewrite filter_cons. by case_decide. Qed.

Lemma hooks_none q : (∀ cb, cb ∈ q → cb ≠ ReloadHook) → hooks q = 0.
Proof.
  intros Hq. induction q as [|cb q IH]; [done|].
  rewrite hooks_cons, IH, decide_False; [done|..].
  - apply Hq. left.
  - intros cb' Hin. apply Hq. by right.
Qed.

Lemma hooks_zero q cb : hooks q = 0 → cb ∈ q → cb ≠ ReloadHook.
Proof.
  intros Hq Hin ->. induction q as [|cb q IH]; [by apply elem_of_nil in Hin|].
  rewrite hooks_cons in Hq. apply elem_of_cons in Hin as [<- | Hin].
  - by rewrite decide_True in Hq.
  - apply IH; [lia | done].
Qed.

Lemma hooks_delete i q : hooks q = 0 → hooks (delete i q) = 0.
Proof.
  intros Hq. apply hooks_none. intros cb Hin.
  eapply hooks_zero; [exact Hq|]. by eapply list_elem_of_delete_inv.
Qed.

Lemma one_scan_act env p a : one_scan p → one_scan (act env p a).
Proof.
  destruct p as [w | | |]; simpl; try done.
  intros [Hq Hwt]. destruct a as [s | | path mtime | i |]; simpl.
  - unfold deliver. destruct (handlers w !! s); [|done].
    destruct (windows env); [done|]. simpl. rewrite hooks_app. simpl.
    split; [|done]. unfold hooks at 2. simpl. lia.
  - rewrite hooks_app. split; [|done]. unfold hooks at 3. simpl. lia.
  - done.
  - unfold wake. destruct (waiting w !! i) as [cb|] eqn:Hi; [|done]. simpl.
    assert (cb ≠ ReloadHook) as Hcb.
    { eapply hooks_zero; [exact Hwt|]. by eapply list_elem_of_lookup_2. }
    rewrite hooks_app, (hooks_cons cb []), decide_False by done.
    split; [unfold hooks at 2; simpl; lia|]. by apply hooks_delete.
  - unfold run_once. destruct (ready w) as [|cb rest] eqn:Hready.
    { simpl. by rewrite Hready. }
    rewrite hooks_cons in Hq.
    destruct cb as [o | o | |]; try done.
    + rewrite decide_False in Hq by done. simpl. rewrite hooks_app.
      split; [unfold hooks at 2; simpl; lia | done].
    + rewrite decide_False in Hq by done.
      destruct (lookup_coro o _) as [c|] eqn:Hc; [|by split].
      destruct (awaiting o _).
      { destruct (store_coro_fields o (Throw "AssertionError") (set_ready (λ _, rest) w))
          as (Hq0 & Hs0 & Hw0 & _).
        unfold one_scan. rewrite Hq0, Hs0, Hw0. simpl. split; [lia|done]. }
      destruct (emit_all_fields o (resume c).1.1 (set_ready (λ _, rest) w))
        as (_ & _ & Hs1 & _ & _ & k & Hq1).
      pose proof (emit_all_waiting o (resume c).1.1 (set_ready (λ _, rest) w)) as Hw1.
      destruct (store_coro_fields o (resume c).1.2
                  (emit_all o (resume c).1.1 (set_ready (λ _, rest) w)))
        as (Hq2 & Hs2 & Hw2 & _).
      assert (hooks (replicate k RaiseStop) = 0) as Hk.
      { apply hooks_none. by intros cb [-> _]%elem_of_replicate. }
      destruct (resume c) as [[es c'] st]. simpl in *.
      destruct st as [| | path args]; [| |done]; simpl;
        rewrite ?hooks_app, Hq2, Hs2, Hw2, Hq1, Hs1, Hw1, hooks_app, Hk; simpl;
        (split; [lia|]); [|done].
      rewrite Hwt. done.
    + rewrite decide_True in Hq by done. unfold _reload_hook.
      destruct (scan_fields env (sys_modules env) (set_ready (λ _, rest) w))
        as (_ & Hs & Hwt' & _ & _ & Hq' & _).
      destruct (scan env (sys_modules env) (set_ready (λ _, rest) w)) as [w' ok].
      simpl in *.
      assert (hooks ((λ n, Step (Reloader n)) <$>
                seq (length (reloads w)) (spawned env (mtimes w) (sys_modules env))) = 0)
        as Hsteps.
      { apply hooks_none. intros cb Hin.
        by apply list_elem_of_fmap in Hin as (n & -> & _). }
      destruct ok; simpl; rewrite ?hooks_app, Hq', Hs, Hwt', hooks_app, Hsteps.
      * split; [|done]. unfold hooks at 3. simpl. lia.
      * split; [lia|done].
Qed.

(** X10.  The watch runs one scan at a time: whatever happens to the
    running server, at most one call of [_reload_hook] is ready or
    scheduled. *)
Theorem at_most_one_scan_pending env files acts w :
  execute env acts (run env files) = Running w →
  (pending_hooks w ≤ 1)%nat.
Proof.
  intros Hrun.
  assert (one_scan (execute env acts (run env files))) as Hinv.
  { clear Hrun. induction acts as [|a acts IH] using rev_ind.
    - simpl. destruct (run env files) as [w' | | |] eqn:Hrun'; try done.
      assert (ssl env = false ∨ (windows env = false ∧ load_cert_chain env = CertLoaded))
        as Hssl.
      { unfold run, _create_ssl_context in Hrun'.
        destruct (ssl env); [|by left]. right.
        destruct (windows env); [done|]. by destruct (load_cert_chain env). }
      destruct (run_reaches_loop env files Hssl)
        as (w'' & Hw'' & _ & Hq & Hs & Hwt & _).
      rewrite Hrun' in Hw''. injection Hw'' as <-.
      unfold one_scan. rewrite Hq, Hs, Hwt. split; [|done].
      destruct (bind_failure env), (debug env); unfold hooks; simpl; lia.
    - rewrite execute_snoc. by apply one_scan_act. }
  rewrite Hrun in Hinv. destruct Hinv as [Hq _].
  unfold pending_hooks. fold (hooks (ready w ++ scheduled w)). by rewrite hooks_app.
Qed.

Lemma at_most_one_scan_pending_witness :
  match two_stale_files with
  | Running w => (pending_hooks w ≤ 1)%nat
  | _ => True
  end.
Proof.
  pose proof (at_most_one_scan_pending debug_env touched_files
                [Elapse; RunOnce; RunOnce; RunOnce]) as H.
  unfold two_stale_files.
  destruct (execute debug_env [Elapse; RunOnce; RunOnce; RunOnce]
              (run debug_env touched_files)) as [w | | |]; try exact I.
  apply H. reflexivity.
Defined.

End ServerExtras.

(** ** Signals and the shutdown *)

Module SignalProofs.
Import Server Samples ServerInvariants Schedules ServerProofs ServerExtras.








(** SIGTERM delivered twice before the loop runs: both tasks are on the
    one coroutine of SIGTERM, and the shutdown runs once. *)
Example same_signal_twice_runs_shutdown_once :
  unload_calls
    (history (execute linux_env
                [Deliver "SIGTERM"; Deliver "SIGTERM";
                 RunOnce; RunOnce; RunOnce; RunOnce; RunOnce]
                (run linux_env ∅))).*2 = ["Dynamips"; "VPCS"] ∧
  is_running (execute linux_env
                [Deliver "SIGTERM"; Deliver "SIGTERM";
                 RunOnce; RunOnce; RunOnce; RunOnce; RunOnce]
                (run linux_env ∅)) = false.
Proof. split; vm_compute; reflexivity. Qed.

(** SIGTERM delivered again while its handler is suspended in the unload
    of Dynamips: the second task resumes the generator before what it
    awaits is done, which ends it; no second run of the shutdown starts,
    and the first makes no further call. *)
Example same_signal_during_unload_starts_no_second_run :
  is_running sigterm_repeated = true ∧
  calls_by (Handler "SIGTERM") (history sigterm_repeated) =
    [Log WARNING "Server has got signal SIGTERM, exiting...";
     Log DEBUG "Unloading module Dynamips"; UnloadCall "Dynamips"].
Proof. split; vm_compute; reflexivity. Qed.


End SignalProofs.

(** ** More on the handlers of the hub's ports *)

Module HubExtras.
Import EthernetHubNodes Dynamips HubSamples.

(** X11.  When the node is not found, [create_nio], [start_capture],
    [stop_capture] and [stream_pcap_file] fail with not-found in their
    first turn: the lookup is their only call and the backend is left as
    it was. *)
Theorem unknown_node_stops_port_handlers `{Backend} `{OsPath} (m : manager)
    (project_id node_id : string) (adapter_number port_number : Z)
    (nio_data : nio_config) (capture_file_name data_link_type : string) :
  manager_get_node m node_id project_id = None →
  run_handler (create_nio project_id node_id adapter_number port_number nio_data) m =
    (inl NotFound, m, [Invoked (GetNode node_id project_id)]) ∧
  run_handler (start_capture project_id node_id adapter_number port_number
                 capture_file_name data_link_type) m =
    (inl NotFound, m, [Invoked (GetNode node_id project_id)]) ∧
  run_handler (stop_capture project_id node_id adapter_number port_number) m =
    (inl NotFound, m, [Invoked (GetNode node_id project_id)]) ∧
  run_handler (stream_pcap_file project_id node_id adapter_number port_number) m =
    (inl NotFound, m, [Invoked (GetNode node_id project_id)]) ∧
  turn (create_nio project_id node_id adapter_number port_number nio_data) m =
    (Finished (inl NotFound), m) ∧
  turn (start_capture project_id node_id adapter_number port_number
          capture_file_name data_link_type) m =
    (Finished (inl NotFound), m) ∧
  turn (stop_capture project_id node_id adapter_number port_number) m =
    (Finished (inl NotFound), m) ∧
  turn (stream_pcap_file project_id node_id adapter_number port_number) m =
    (Finished (inl NotFound), m).
Proof.
  intros Hnode. repeat split; simpl; by rewrite Hnode.
Qed.

Lemma unknown_node_stops_port_handlers_witness :
  run_handler (create_nio "p2" "hub1" 0 1 tunnel) capturing =
    (inl NotFound, capturing, [Invoked (GetNode "hub1" "p2")]) ∧
  turn (stop_capture "p2" "hub1" 0 0) capturing = (Finished (inl NotFound), capturing).
Proof.
  destruct (@unknown_node_stops_port_handlers backend posixpath capturing "p2" "hub1" 0 1 tunnel
              "cap2.pcap" "DLT_EN10MB") as (Hcreate & _); [reflexivity|].
  destruct (@unknown_node_stops_port_handlers backend posixpath capturing "p2" "hub1" 0 0 tunnel
              "cap2.pcap" "DLT_EN10MB") as (_ & _ & _ & _ & _ & _ & Hstop & _); [reflexivity|].
  split; [exact Hcreate | exact Hstop].
Defined.

(** X12.  [create_nio] never releases the endpoint it has created: when
    the attach to the port raises, the exception is the reply, the calls
    are the lookup, the creation and the attach, and the backend is left
    as the failed attach left it.  The creation and the attach are two
    awaited calls: the handler can be suspended between them, with the
    endpoint created and not attached. *)
Theorem create_nio_keeps_endpoint_when_attach_fails `{Backend} (m m1 m2 : manager)
    (project_id node_id : string) (adapter_number port_number : Z)
    (nio_data : nio_config) (n : node) (x : nio) (e : error) :
  manager_get_node m node_id project_id = Some n →
  manager_create_nio n nio_data m = (inr x, m1) →
  node_add_nio n x port_number m1 = (inl e, m2) →
  run_handler (create_nio project_id node_id adapter_number port_number nio_data) m =
    (inl e, m2, [Invoked (GetNode node_id project_id);
                 Invoked (CreateNio n nio_data);
                 Invoked (AddNio n x port_number)]) ∧
  ∃ rest,
    turn (create_nio project_id node_id adapter_number port_number nio_data) m =
      (Suspended rest, m1) ∧
    turn rest m1 = (Finished (inl e), m2).
Proof.
  intros Hnode Hcreate Hadd. split.
  - simpl. by rewrite Hnode, Hcreate, Hadd.
  - eexists. simpl. rewrite Hnode, Hcreate. split; [reflexivity|].
    simpl. by rewrite Hadd.
Qed.

Lemma create_nio_keeps_endpoint_when_attach_fails_witness :
  (run_handler (create_nio "p1" "hub1" 0 0 tunnel) capturing).1.1 = inl Conflict ∧
  live (run_handler (create_nio "p1" "hub1" 0 0 tunnel) capturing).1.2 1 = true ∧
  get_nio (run_handler (create_nio "p1" "hub1" 0 0 tunnel) capturing).1.2 "hub1" 0 = Some 0.
Proof.
  destruct (@create_nio_keeps_endpoint_when_attach_fails backend capturing
              (create_endpoint "hub1" tunnel capturing).2
              (create_endpoint "hub1" tunnel capturing).2
              "p1" "hub1" 0 0 tunnel "hub1" 1 Conflict) as [-> _];
    [reflexivity | reflexivity | reflexivity |].
  repeat split; vm_compute; reflexivity.
Defined.





(** X14.  [stream_pcap_file] only reads: it makes no awaited call, so it
    replies in its first turn, and it leaves the backend as it was.  It
    fails with not-found when the node or the endpoint of the port is not
    found, and otherwise streams the capture of the endpoint under the
    project of the node. *)
Theorem stream_pcap_file_only_reads `{Backend} (m : manager)
    (project_id node_id : string) (adapter_number port_number : Z) :
  let reply :=
    match manager_get_node m node_id project_id with
    | None => inl NotFound
    | Some n =>
        match node_get_nio m n port_number with
        | None => inl NotFound
        | Some x => inr (manager_stream_pcap_file m x (node_project_id m n))
        end
    end in
  (run_handler (stream_pcap_file project_id node_id adapter_number port_number) m).1 =
    (reply, m) ∧
  turn (stream_pcap_file project_id node_id adapter_number port_number) m =
    (Finished reply, m).
Proof.
  simpl. destruct (manager_get_node m node_id project_id) as [n|]; [|done].
  simpl. by destruct (node_get_nio m n port_number).
Qed.

End HubExtras.

(** ** The handlers of the node record *)

Module RecordExtras.
Import EthernetHubNodes EthernetHubRecords Registry.

(** X15.  [delete_ethernet_hub] and [duplicate_ethernet_hub] do not use
    the project of the request: they are the same program for any two
    projects, and they do not look the node up before the one call they
    make, on the node identifier alone. *)
Theorem delete_and_duplicate_ignore_project `{NodeStore}
    (p1 p2 node_id destination_node_id : string) (m : store) :
  delete_ethernet_hub p1 node_id = delete_ethernet_hub p2 node_id ∧
  duplicate_ethernet_hub p1 node_id destination_node_id =
    duplicate_ethernet_hub p2 node_id destination_node_id ∧
  (delete_ethernet_hub p1 node_id m).2 = [(Awaited, DeleteNode node_id)] ∧
  (delete_ethernet_hub p1 node_id m).1.2 = (store_delete_node node_id m).2 ∧
  (duplicate_ethernet_hub p1 node_id destination_node_id m).2 =
    [(Awaited, DuplicateNode node_id destination_node_id)] ∧
  (duplicate_ethernet_hub p1 node_id destination_node_id m).1.2 =
    (store_duplicate_node node_id destination_node_id m).2.
Proof.
  repeat split; try reflexivity;
    unfold delete_ethernet_hub, duplicate_ethernet_hub, bind, perform, read.
  - by destruct (store_delete_node node_id m) as [[e | []] m'].
  - by destruct (store_delete_node node_id m) as [[e | []] m'].
  - by destruct (store_duplicate_node node_id destination_node_id m) as [[e | n] m'].
  - by destruct (store_duplicate_node node_id destination_node_id m) as [[e | n] m'].
Qed.

(** X16.  When the rename raises, [update_ethernet_hub] stops there: the
    exception is the reply, the port mapping of the request is not
    assigned and [updated()] is not called. *)
Theorem update_stops_at_failed_rename `{NodeStore} (m m1 : store)
    (project_id node_id : string) (d : node_data) (n : hub_node) (nm : string)
    (e : error) :
  store_get_node m node_id project_id = Some n →
  name d = Some nm →
  hub_node_name m n ≠ nm →
  hub_node_set_name n nm m = (inl e, m1) →
  update_ethernet_hub project_id node_id d m =
    (inl (Raised e), m1, [(Direct, GetNode node_id project_id); (Awaited, SetName n nm)]).
Proof.
  intros Hnode Hname Hdiff Hset.
  unfold update_ethernet_hub, bind, get_node, perform, read.
  rewrite Hnode, Hname. apply String.eqb_neq in Hdiff. rewrite Hdiff.
  by rewrite Hset.
Qed.

Lemma update_stops_at_failed_rename_witness :
  update_ethernet_hub "p1" "hub1" full_update offline =
    (inl (Raised (BackendError "hypervisor unreachable")), offline,
     [(Direct, GetNode "hub1" "p1"); (Awaited, SetName "hub1" "Hub2")]).
Proof.
  apply (@update_stops_at_failed_rename node_store offline offline "p1" "hub1"
           full_update "hub1" "Hub2" (BackendError "hypervisor unreachable"));
    [reflexivity | reflexivity | discriminate | reflexivity].
Defined.

(** X17.  An update that names no port mapping and no name, or the name
    the node has, renames nothing and assigns nothing: besides the lookup
    it only calls [updated()], and it replies with the node as [updated()]
    leaves it. *)
Theorem update_without_change_only_marks_updated `{NodeStore} (m m1 : store)
    (project_id node_id : string) (d : node_data) (n : hub_node) :
  store_get_node m node_id project_id = Some n →
  name d = None ∨ name d = Some (hub_node_name m n) →
  ports_mapping d = None →
  hub_node_updated n m = (inr tt, m1) →
  update_ethernet_hub project_id node_id d m =
    (inr (hub_node_json m1 n), m1,
     [(Direct, GetNode node_id project_id); (Direct, Updated n)]).
Proof.
  intros Hnode Hname Hports Hupdated.
  unfold update_ethernet_hub, bind, get_node, perform, read, ret.
  rewrite Hnode, Hports.
  destruct Hname as [-> | ->]; [|rewrite String.eqb_refl]; by rewrite Hupdated.
Qed.

Lemma update_without_change_only_marks_updated_witness :
  update_ethernet_hub "p1" "hub1" same_name offline =
    (inr (Some {| entry_name := "Hub1"; entry_project := "p1";
                  entry_ports := [0; 1; 2]%Z; updated_at := 5 |}),
     (touch "hub1" offline).2,
     [(Direct, GetNode "hub1" "p1"); (Direct, Updated "hub1")]).
Proof.
  apply (@update_without_change_only_marks_updated node_store offline
           (touch "hub1" offline).2 "p1" "hub1" same_name "hub1");
    [reflexivity | by right | reflexivity | reflexivity].
Defined.

(** X18.  A full update renames first, then assigns the port mapping,
    then calls [updated()], each in the state the one before left, and
    replies with the node as it is after all three. *)
Theorem update_renames_then_maps_then_marks `{NodeStore} (m m1 m2 m3 : store)
    (project_id node_id : string) (d : node_data) (n : hub_node) (nm : string)
    (ports : mapping) :
  store_get_node m node_id project_id = Some n →
  name d = Some nm →
  hub_node_name m n ≠ nm →
  ports_mapping d = Some ports →
  hub_node_set_name n nm m = (inr tt, m1) →
  hub_node_set_ports_mapping n ports m1 = (inr tt, m2) →
  hub_node_updated n m2 = (inr tt, m3) →
  update_ethernet_hub project_id node_id d m =
    (inr (hub_node_json m3 n), m3,
     [(Direct, GetNode node_id project_id); (Awaited, SetName n nm);
      (Direct, SetPortsMapping n ports); (Direct, Updated n)]).
Proof.
  intros Hnode Hname Hdiff Hports Hset Hmap Hupdated.
  unfold update_ethernet_hub, bind, get_node, perform, read.
  rewrite Hnode, Hname, Hports. apply String.eqb_neq in Hdiff. rewrite Hdiff.
  by rewrite Hset, Hmap, Hupdated.
Qed.

Lemma update_renames_then_maps_then_marks_witness :
  update_ethernet_hub "p1" "hub1" full_update online =
    (inr (Some {| entry_name := "Hub2"; entry_project := "p1";
                  entry_ports := [0; 1]%Z; updated_at := 5 |}),
     (touch "hub1" (set_ports "hub1" [0; 1]%Z (rename "hub1" "Hub2" online).2).2).2,
     [(Direct, GetNode "hub1" "p1"); (Awaited, SetName "hub1" "Hub2");
      (Direct, SetPortsMapping "hub1" [0; 1]%Z); (Direct, Updated "hub1")]).
Proof.
  apply (@update_renames_then_maps_then_marks node_store online
           (rename "hub1" "Hub2" online).2
           (set_ports "hub1" [0; 1]%Z (rename "hub1" "Hub2" online).2).2
           (touch "hub1" (set_ports "hub1" [0; 1]%Z (rename "hub1" "Hub2" online).2).2).2
           "p1" "hub1" full_update "hub1" "Hub2" [0; 1]%Z);
    first [discriminate | vm_compute; reflexivity].
Defined.

End RecordExtras.
